(** * django-pymodsecurity: the ModSecurity middleware for Django

    A shallow embedding of [django_pymodsecurity/middleware.py] and the
    properties of its rule loading, of its phased inspection pipeline and of
    the translation of an engine verdict into a response.

    The rule engine (the [ModSecurity] Python binding), the Python runtime
    ([glob], [int]) and the Django settings are collaborators of the
    middleware: they are interfaces here, and every theorem holds for all of
    their implementations.  What Django itself does with the objects the
    middleware touches is part of the model: [get_port], the exceptions of
    [request.body], the checks of the two response constructors, and
    [getvalue], which uses a streaming response up.  The middleware itself
    is written in a state and exception monad whose state is the middleware
    object, together with the record of every call it makes on its
    collaborators. *)

From Stdlib Require Import ZArith List String Ascii Bool Lia.
Import ListNotations.
Local Open Scope string_scope.
Local Open Scope Z_scope.

Set Implicit Arguments.

(** ** Python values *)

(** [bytes] objects (request and response bodies). *)
Definition bytes := string.

(** A [dict] with [str] keys, as its items in insertion order. *)
Definition dict (V : Type) := list (string * V).

Fixpoint dict_get {V : Type} (d : dict V) (key : string) : option V :=
  match d with
  | [] => None
  | (k, v) :: d' => if String.eqb k key then Some v else dict_get d' key
  end.

(** [key in d] *)
Definition dict_contains {V : Type} (d : dict V) (key : string) : bool :=
  match dict_get d key with Some _ => true | None => false end.

(** ['\n'] *)
Definition newline : string := String (ascii_of_nat 10) EmptyString.

(** [sep.join(l)] *)
Definition join (sep : string) (l : list string) : string := String.concat sep l.

(** [s.startswith(p)] *)
Definition startswith (s p : string) : bool := String.prefix p s.

(** [s[n:]] *)
Fixpoint slice_from (n : nat) (s : string) : string :=
  match n, s with
  | O, _ => s
  | S n', String _ s' => slice_from n' s'
  | S _, EmptyString => EmptyString
  end.

(** The exceptions that can leave the middleware: a missing [META] key; a
    port that is not an integer literal, or a status code Django refuses
    ([ValueError]); a redirect Django refuses; and the errors of reading
    [request.body]. *)
Inductive Exception : Type :=
| KeyError (key : string)
| ValueError (literal : string)
| DisallowedRedirect (url : string)
| BadHeaderError (value : string)
| RawPostDataException
| RequestDataTooBig
| UnreadablePostError.

(** What evaluating an expression gives: a value, or an exception. *)
Inductive Result (A : Type) : Type :=
| Return (a : A)
| Raise (e : Exception).
Arguments Return {A} a.
Arguments Raise {A} e.

(** ** Django: requests, responses, settings *)

(** The parts of [django.http.HttpRequest] the middleware reads.  [body] is
    what reading [request.body] gives: the bytes, or the exception Django
    raises when the stream was read before, the body is too big or the read
    fails. *)
Record HttpRequest : Type := {
  META : dict string;
  path : string;
  method : string;
  body : Result bytes
}.

(** The content of a response object: the bytes of an [HttpResponse], or,
    for a [StreamingHttpResponse] (a [FileResponse]), the chunks its iterator
    has still to yield. *)
Inductive Content : Type :=
| Bytes (content : bytes)
| Streaming (chunks : list bytes).

(** The response object the wrapped handler returns, by what the middleware
    reads from it: [items()], [status_code] and, through [getvalue()], its
    content. *)
Record HandlerResponse : Type := {
  items : list (string * string);
  status_code : Z;
  content : Content
}.

(** [response.getvalue()] and the object after the call: the content of an
    [HttpResponse], which stays as it is; for a streaming response
    [b''.join(self.streaming_content)], which uses the iterator up. *)
Definition getvalue (response : HandlerResponse) : bytes * HandlerResponse :=
  match content response with
  | Bytes b => (b, response)
  | Streaming chunks =>
      (String.concat "" chunks,
       {| items := items response; status_code := status_code response;
          content := Streaming [] |})
  end.

(** What [__call__] returns: the handler's own response object, as it is
    when the call returns, or one of the two responses the middleware
    constructs, [HttpResponseRedirect(url)] and [HttpResponse(status=status)]
    (no content is passed to the latter). *)
Inductive Response : Type :=
| Original (original_response : HandlerResponse)
| HttpResponseRedirect (redirect_to : string)
| HttpResponse (status : Z).

(** The value of a setting: absent, a [str], or a [list] of [str]. *)
Inductive SettingValue : Type :=
| Unset
| Str (s : string)
| StrList (l : list string).

Record Settings : Type := {
  MODSECURITY_RULE_FILES : SettingValue;
  MODSECURITY_RULES : SettingValue;
  USE_X_FORWARDED_PORT : bool
}.

(** ** The ModSecurity binding *)

(** [ModSecurity.ModSecurityIntervention]: the verdict object the engine
    fills in. *)
Record ModSecurityIntervention : Type := {
  status : Z;
  url : option string;
  log : option string;
  disruptive : bool
}.

(** The methods of [ModSecurity.Transaction] that submit data or signal the
    completion of a phase. *)
Inductive TxCall : Type :=
| processConnection (client : string) (cPort : Z) (server : string) (sPort : Z)
| processURI (uri http_method http_version : string)
| addRequestHeader (key value : string)
| processRequestHeaders
| appendRequestBody (data : bytes)
| processRequestBody
| addResponseHeader (key value : string)
| processResponseHeaders (code : Z) (proto : string)
| appendResponseBody (data : bytes)
| processResponseBody.

(** The engine is opaque: a rules object and a transaction object with state
    of their own.  A load returns the number of rules read, negative on a
    parse error.  A call on a transaction may hand messages to the server
    log callback registered with [setServerLogCb]; they are returned next to
    the new state.  [intervention] takes the verdict object and returns
    whether there is an intervention, and the object as the engine left it. *)
Class ModSecurity : Type := {
  Rules : Type;
  Transaction : Type;
  Rules_new : Rules;
  loadFromUri : string -> Rules -> Z * Rules;
  load : string -> Rules -> Z * Rules;
  getParserError : Rules -> string;
  Transaction_new : Rules -> Transaction;
  ModSecurityIntervention_new : ModSecurityIntervention;
  submit : TxCall -> Transaction -> Transaction * list string;
  intervention :
    ModSecurityIntervention -> Transaction ->
    bool * ModSecurityIntervention * Transaction * list string
}.

(** The Python runtime and the Django installation the module imports:
    [glob.glob(pattern, recursive=True)] on the file system, [int] on a
    [str] ([None] is [ValueError]), [django.conf.settings], and what
    [HttpResponseRedirect(url)] raises, if anything: [DisallowedRedirect]
    when [urlparse] finds in the URL a scheme other than http, https and ftp,
    [BadHeaderError] when the URL holds a newline. *)
Class Host : Type := {
  glob : string -> list string;
  int : string -> option Z;
  settings : Settings;
  HttpResponseRedirect_raises : string -> option Exception
}.

(** What [HttpResponse] raises for a status code it refuses. *)
Definition invalid_status : Exception :=
  ValueError "HTTP status code must be an integer from 100 to 599.".

(** [HttpResponse(status=status)]: Django raises [ValueError] unless
    [100 <= status <= 599]. *)
Definition new_HttpResponse (status : Z) : Result Response :=
  if (100 <=? status) && (status <=? 599) then Return (HttpResponse status)
  else Raise invalid_status.

(** [HttpResponseRedirect(redirect_to)] *)
Definition new_HttpResponseRedirect {H : Host} (redirect_to : string)
  : Result Response :=
  match HttpResponseRedirect_raises redirect_to with
  | Some e => Raise e
  | None => Return (HttpResponseRedirect redirect_to)
  end.

(** The same runtime under other settings. *)
Definition with_settings (H0 : Host) (st : Settings) : Host :=
  {| glob := @glob H0; int := @int H0; settings := st;
     HttpResponseRedirect_raises := @HttpResponseRedirect_raises H0 |}.

(** ** The state and exception monad *)

Definition M (S A : Type) : Type := S -> Result A * S.

Definition ret {S A : Type} (a : A) : M S A := fun s => (Return a, s).

Definition bind {S A B : Type} (c : M S A) (k : A -> M S B) : M S B :=
  fun s =>
    match c s with
    | (Return a, s') => k a s'
    | (Raise e, s') => (Raise e, s')
    end.

Definition gets {S A : Type} (f : S -> A) : M S A := fun s => (Return (f s), s).

Definition modify {S : Type} (f : S -> S) : M S unit := fun s => (Return tt, f s).

Declare Scope monad_scope.
Delimit Scope monad_scope with monad.
Notation "x <- c ;; k" := (bind c (fun x => k))
  (at level 61, c at next level, right associativity) : monad_scope.
Notation "' p <- c ;; k" := (bind c (fun x => match x with p => k end))
  (at level 61, p pattern, c at next level, right associativity) : monad_scope.
Notation "c ;; k" := (bind c (fun _ => k))
  (at level 61, right associativity) : monad_scope.
Local Open Scope monad_scope.

(** [for x in l: body(x)] *)
Fixpoint for_each {S A : Type} (l : list A) (body : A -> M S unit) : M S unit :=
  match l with
  | [] => ret tt
  | x :: l' => body x ;; for_each l' body
  end.

(** ** The middleware object *)

Inductive Level : Type := INFO | WARNING.

Definition LogRecord : Type := (Level * string)%type.

(** Every call the middleware makes on the engine and on the wrapped
    handler, with what the call returned. *)
Inductive Event : Type :=
| Rules_loadFromUri (uri : string) (returned : Z)
| Rules_load (text : string) (returned : Z)
| Rules_getParserError (returned : string)
| Transaction_init
| Tx (c : TxCall)
| Tx_intervention (returned : bool) (it : ModSecurityIntervention)
| Get_response (request : HttpRequest).

(** The outcome of loading one path: the path, the count returned and the
    parser error reported after it. *)
Definition outcome_path (o : string * Z * string) : string := fst (fst o).
Definition outcome_count (o : string * Z * string) : Z := snd (fst o).
Definition outcome_error (o : string * Z * string) : string := snd o.

Definition failed (o : string * Z * string) : bool := outcome_count o <? 0.

Definition sum (l : list Z) : Z := fold_right Z.add 0 l.

(** The warning [load_rule_files] logs for a path that failed to load. *)
Definition file_warning (o : string * Z * string) : LogRecord :=
  (WARNING,
   ("[ModSecurity] Error trying to load rule file "
    ++ outcome_path o ++ ". " ++ outcome_error o)%string).

(** The calls made on the rules object for one path. *)
Definition file_events (o : string * Z * string) : list Event :=
  Rules_loadFromUri (outcome_path o) (outcome_count o)
  :: (if failed o then [Rules_getParserError (outcome_error o)] else []).

Section Middleware.

Context {MS : ModSecurity} {H : Host}.

(** The attributes of a [PyModSecurityMiddleware] object.  [logger] holds the
    records emitted through [self.logger], oldest first; [calls] is the
    record of the calls made so far, oldest first.  [self.modsecurity], the
    engine handle, has no state of its own here: what it does with the log
    callback is in the messages the transaction's methods return. *)
Record Self : Type := {
  get_response : HttpRequest -> HandlerResponse;
  rules : Rules;
  rule_files : option (list string);
  rule_lines : option string;
  _rules_count : Z;
  logger : list LogRecord;
  calls : list Event
}.

Definition set_rules (r : Rules) (self : Self) : Self :=
  {| get_response := get_response self; rules := r;
     rule_files := rule_files self; rule_lines := rule_lines self;
     _rules_count := _rules_count self; logger := logger self;
     calls := calls self |}.

Definition set_rules_count (n : Z) (self : Self) : Self :=
  {| get_response := get_response self; rules := rules self;
     rule_files := rule_files self; rule_lines := rule_lines self;
     _rules_count := n; logger := logger self; calls := calls self |}.

Definition set_logger (l : list LogRecord) (self : Self) : Self :=
  {| get_response := get_response self; rules := rules self;
     rule_files := rule_files self; rule_lines := rule_lines self;
     _rules_count := _rules_count self; logger := l; calls := calls self |}.

Definition set_calls (c : list Event) (self : Self) : Self :=
  {| get_response := get_response self; rules := rules self;
     rule_files := rule_files self; rule_lines := rule_lines self;
     _rules_count := _rules_count self; logger := logger self; calls := c |}.

Definition emit (e : Event) (self : Self) : Self :=
  set_calls (calls self ++ [e]) self.

Definition emit_log (level : Level) (msg : string) (self : Self) : Self :=
  set_logger (logger self ++ [(level, msg)]) self.

(** [self.logger.warning(msg)] *)
Definition logger_warning (msg : string) : M Self unit := modify (emit_log WARNING msg).

(** [self.rules.loadFromUri(uri)] *)
Definition rules_loadFromUri (uri : string) : M Self Z :=
  fun self =>
    let '(n, r) := loadFromUri uri (rules self) in
    (Return n, emit (Rules_loadFromUri uri n) (set_rules r self)).

(** [self.rules.load(text)] *)
Definition rules_load (text : string) : M Self Z :=
  fun self =>
    let '(n, r) := load text (rules self) in
    (Return n, emit (Rules_load text n) (set_rules r self)).

(** [self.rules.getParserError()] *)
Definition rules_getParserError : M Self string :=
  fun self =>
    let e := getParserError (rules self) in
    (Return e, emit (Rules_getParserError e) self).

(** The property [rules_count]. *)
Definition rules_count (self : Self) : Z := _rules_count self.

(** [self._rules_count += n] *)
Definition add_rules_count (n : Z) : M Self unit :=
  modify (fun self => set_rules_count (_rules_count self + n) self).

Definition load_rule_files (rule_files : list string) : M Self Z :=
  before_count <- gets rules_count ;;
  for_each rule_files (fun pattern =>
    for_each (glob pattern) (fun rule_file =>
      rules_count <- rules_loadFromUri rule_file ;;
      if rules_count <? 0 then
        parser_error <- rules_getParserError ;;
        logger_warning ("[ModSecurity] Error trying to load rule file "
                        ++ rule_file ++ ". " ++ parser_error)
      else
        add_rules_count rules_count)) ;;
  after_count <- gets rules_count ;;
  ret (after_count - before_count).

Definition load_rules (rules : option string) : M Self Z :=
  match rules with
  | None => ret 0
  | Some rules =>
      if (Z.of_nat (String.length rules) <=? 0) then ret 0
      else
        rules_count <- rules_load rules ;;
        (if rules_count <? 0 then
           parser_error <- rules_getParserError ;;
           logger_warning ("[ModSecurity] Error trying to load rules: " ++ parser_error)
         else
           add_rules_count rules_count) ;;
        ret rules_count
  end.

(** *** Request processing *)

(** While a request is processed the state is the middleware object and the
    transaction created for that request. *)
Record Session : Type := {
  self : Self;
  transaction : Transaction
}.

Definition on_self (f : Self -> Self) (ses : Session) : Session :=
  {| self := f (self ses); transaction := transaction ses |}.

(** [modsecurity_log_callback(data, msg)], once for each message the engine
    hands over: [self.logger.info(msg)]. *)
Definition modsecurity_log_callback (msgs : list string) (self : Self) : Self :=
  set_logger (logger self ++ map (fun msg => (INFO, msg)) msgs) self.

(** [self.logger.info(msg)] *)
Definition logger_info (msg : string) : M Session unit :=
  modify (on_self (emit_log INFO msg)).

(** A submission or completion call on the transaction. *)
Definition tx (c : TxCall) : M Session unit :=
  fun ses =>
    let '(t, msgs) := submit c (transaction ses) in
    (Return tt,
     {| self := modsecurity_log_callback msgs (emit (Tx c) (self ses));
        transaction := t |}).

(** [transaction.intervention(intervention)] *)
Definition tx_intervention (it : ModSecurityIntervention)
  : M Session (bool * ModSecurityIntervention) :=
  fun ses =>
    let '(pending, it', t, msgs) := intervention it (transaction ses) in
    (Return (pending, it'),
     {| self := modsecurity_log_callback msgs
                  (emit (Tx_intervention pending it') (self ses));
        transaction := t |}).

(** [self.get_response(request)] *)
Definition call_get_response (request : HttpRequest) : M Session HandlerResponse :=
  fun ses =>
    (Return (get_response (self ses) request),
     on_self (emit (Get_response request)) ses).

(** An expression that may raise, evaluated inside a method. *)
Definition eval {S A : Type} (r : Result A) : M S A := fun s => (r, s).

(** [d[key]] *)
Definition getitem (d : dict string) (key : string) : Result string :=
  match dict_get d key with
  | Some v => Return v
  | None => Raise (KeyError key)
  end.

(** [int(s)] *)
Definition to_int (s : string) : Result Z :=
  match int s with
  | Some n => Return n
  | None => Raise (ValueError s)
  end.

(** [HttpRequest.get_port()] as Django defines it: the forwarded port when
    [USE_X_FORWARDED_PORT] is set and the header is present, and
    [META['SERVER_PORT']] otherwise. *)
Definition get_port (request : HttpRequest) : Result string :=
  if USE_X_FORWARDED_PORT settings
     && dict_contains (META request) "HTTP_X_FORWARDED_PORT"
  then getitem (META request) "HTTP_X_FORWARDED_PORT"
  else getitem (META request) "SERVER_PORT".

(** The four arguments of [transaction.processConnection], evaluated from
    left to right. *)
Definition processConnection_args (request : HttpRequest)
  : Result (string * Z * string * Z) :=
  let meta := META request in
  match getitem meta "REMOTE_ADDR" with
  | Raise e => Raise e
  | Return remote_addr =>
    match get_port request with
    | Raise e => Raise e
    | Return port =>
      match to_int port with
      | Raise e => Raise e
      | Return port =>
        match getitem meta "SERVER_NAME" with
        | Raise e => Raise e
        | Return server_name =>
          match getitem meta "SERVER_PORT" with
          | Raise e => Raise e
          | Return server_port =>
            match to_int server_port with
            | Raise e => Raise e
            | Return server_port =>
                Return (remote_addr, port, server_name, server_port)
            end
          end
        end
      end
    end
  end.

(** [ModSecurityIntervention()] is never [None], so the first test of the
    method never returns.  [pending] and [disruptive] are the truth values of
    what the binding returns and stores. *)
Definition process_intervention : M Session (option Response) :=
  '(pending, intervention) <- tx_intervention ModSecurityIntervention_new ;;
  if negb pending then ret None
  else
    (match log intervention with
     | Some msg => logger_info msg
     | None => ret tt
     end) ;;
    if negb (disruptive intervention) then ret None
    else
      response <- eval (match url intervention with
                        | Some redirect_to => new_HttpResponseRedirect redirect_to
                        | None => new_HttpResponse (status intervention)
                        end) ;;
      ret (Some response).

Definition _iter_headers (request : HttpRequest) : list (string * string) :=
  flat_map (fun '(key, value) =>
              if startswith key "HTTP_" then [(slice_from 5 key, value)] else [])
           (META request).

Definition process_request (request : HttpRequest) : M Session (option Response) :=
  '(remote_addr, port, server_name, server_port) <-
     eval (processConnection_args request) ;;
  tx (processConnection remote_addr port server_name server_port) ;;
  response <- process_intervention ;;
  match response with
  | Some _ => ret response
  | None =>
    tx (processURI (path request) (method request) "1.1") ;;
    response <- process_intervention ;;
    match response with
    | Some _ => ret response
    | None =>
      for_each (_iter_headers request)
               (fun '(key, value) => tx (addRequestHeader key value)) ;;
      tx processRequestHeaders ;;
      response <- process_intervention ;;
      match response with
      | Some _ => ret response
      | None =>
        data <- eval (body request) ;;
        tx (appendRequestBody data) ;;
        tx processRequestBody ;;
        response <- process_intervention ;;
        ret response
      end
    end
  end.

Definition process_response (request : HttpRequest)
           (original_response : HandlerResponse) : M Session Response :=
  for_each (items original_response)
           (fun '(field, value) => tx (addResponseHeader field value)) ;;
  tx (processResponseHeaders (status_code original_response) "HTTP/1.1") ;;
  response <- process_intervention ;;
  match response with
  | Some response => ret response
  | None =>
    '(data, original_response) <- ret (getvalue original_response) ;;
    tx (appendResponseBody data) ;;
    tx processResponseBody ;;
    response <- process_intervention ;;
    ret (match response with
         | Some response => response
         | None => Original original_response
         end)
  end.

(** The body of [__call__], once the transaction exists. *)
Definition handle (request : HttpRequest) : M Session Response :=
  response <- process_request request ;;
  match response with
  | Some response => ret response
  | None =>
    response <- call_get_response request ;;
    process_response request response
  end.

(** [__call__]: the transaction is local to the call. *)
Definition __call__ (request : HttpRequest) : M Self Response :=
  fun self0 =>
    let ses := {| self := emit Transaction_init self0;
                  transaction := Transaction_new (rules self0) |} in
    let '(response, ses') := handle request ses in
    (response, self ses').

(** *** Construction *)

(** [getattr(settings, name, None)] followed by the [isinstance(_, str)]
    normalisation of [rule_files]. *)
Definition init_rule_files : option (list string) :=
  match MODSECURITY_RULE_FILES settings with
  | Unset => None
  | Str s => Some [s]
  | StrList l => Some l
  end.

(** The same for [rule_lines] and [isinstance(_, list)]. *)
Definition init_rule_lines : option string :=
  match MODSECURITY_RULES settings with
  | Unset => None
  | Str s => Some s
  | StrList l => Some (join newline l)
  end.

(** The attributes as [__init__] sets them before it loads anything. *)
Definition attributes (get_response : HttpRequest -> HandlerResponse) : Self :=
  {| get_response := get_response;
     rules := Rules_new;
     rule_files := init_rule_files;
     rule_lines := init_rule_lines;
     _rules_count := 0;
     logger := [];
     calls := [] |}.

Definition __init__ (get_response : HttpRequest -> HandlerResponse)
  : Result unit * Self :=
  let self0 := attributes get_response in
  ((match rule_files self0 with
    | Some rule_files => _ <- load_rule_files rule_files ;; ret tt
    | None => ret tt
    end) ;;
   (match rule_lines self0 with
    | Some rule_lines => _ <- load_rules (Some rule_lines) ;; ret tt
    | None => ret tt
    end)) self0.

(** *** The lifetime of a middleware object *)

(** A method that takes the transaction as an argument, run on [t]. *)
Definition with_transaction {A : Type} (c : M Session A) (t : Transaction)
  : M Self A :=
  fun s =>
    let '(r, ses') := c {| self := s; transaction := t |} in (r, self ses').

(** The methods that can be called on the object once it is constructed. *)
Inductive Op : Type :=
| Op_load_rule_files (rule_files : list string)
| Op_load_rules (rules : option string)
| Op_call (request : HttpRequest)
| Op_process_request (request : HttpRequest) (t : Transaction)
| Op_process_response (request : HttpRequest) (original_response : HandlerResponse)
                      (t : Transaction)
| Op_process_intervention (t : Transaction)
| Op_modsecurity_log_callback (msg : string)
| Op_rules_count.

(** The object after a method call, whatever the call returned or raised. *)
Definition exec (op : Op) (s : Self) : Self :=
  match op with
  | Op_load_rule_files rule_files => snd (load_rule_files rule_files s)
  | Op_load_rules rules => snd (load_rules rules s)
  | Op_call request => snd (__call__ request s)
  | Op_process_request request t =>
      snd (with_transaction (process_request request) t s)
  | Op_process_response request original_response t =>
      snd (with_transaction (process_response request original_response) t s)
  | Op_process_intervention t => snd (with_transaction process_intervention t s)
  | Op_modsecurity_log_callback msg => modsecurity_log_callback [msg] s
  | Op_rules_count => s
  end.

Definition is_load_op (op : Op) : bool :=
  match op with
  | Op_load_rule_files _ | Op_load_rules _ => true
  | _ => false
  end.

Definition lifetime (ops : list Op) (s : Self) : Self :=
  fold_left (fun s op => exec op s) ops s.

(** The loads [__init__] makes, as method calls. *)
Definition init_ops : list Op :=
  (match init_rule_files with
   | Some rule_files => [Op_load_rule_files rule_files]
   | None => []
   end)
  ++ (match init_rule_lines with
      | Some rule_lines => [Op_load_rules (Some rule_lines)]
      | None => []
      end).

(** *** What a sequence of loads gives on the engine *)

(** The paths a call of [load_rule_files] visits, in the order of the two
    nested loops. *)
Definition expanded (rule_files : list string) : list string :=
  flat_map glob rule_files.

(** Loading [paths] one after the other on the rules object [r]: for every
    path the count the engine returns and the parser error it then reports,
    and the rules object at the end. *)
Fixpoint load_outcomes (paths : list string) (r : Rules)
  : list (string * Z * string) * Rules :=
  match paths with
  | [] => ([], r)
  | p :: paths' =>
      let '(n, r') := loadFromUri p r in
      let '(outcomes, r'') := load_outcomes paths' r' in
      ((p, n, getParserError r') :: outcomes, r'')
  end.


(** The body of the inner loop of [load_rule_files]. *)
Definition load_file (rule_file : string) : M Self unit :=
  rules_count <- rules_loadFromUri rule_file ;;
  if rules_count <? 0 then
    parser_error <- rules_getParserError ;;
    logger_warning ("[ModSecurity] Error trying to load rule file "
                    ++ rule_file ++ ". " ++ parser_error)%string
  else
    add_rules_count rules_count.

Definition succeeded (o : string * Z * string) : bool := negb (failed o).

(** What loading the paths with outcomes [outs] does to the middleware. *)
Definition loads_frame (outs : list (string * Z * string)) (r : Rules)
           (s s' : Self) : Prop :=
  rules s' = r /\
  _rules_count s' = _rules_count s + sum (map outcome_count (filter succeeded outs)) /\
  logger s' = (logger s ++ map file_warning (filter failed outs))%list /\
  calls s' = (calls s ++ flat_map file_events outs)%list /\
  get_response s' = get_response s /\
  rule_files s' = rule_files s /\
  rule_lines s' = rule_lines s.

(** The middleware object keeps everything but the record of calls (and the
    log, which the engine's callback may extend). *)
Definition frame (new : list Event) (s s' : Self) : Prop :=
  calls s' = (calls s ++ new)%list /\
  _rules_count s' = _rules_count s /\
  rules s' = rules s /\
  get_response s' = get_response s.

(** [c] run from [ses] ends, returning or raising, having made the calls
    [new] and nothing else to the middleware object, with [Q] of how it
    ends. *)
Definition run {A : Type} (c : M Session A) (ses : Session)
           (Q : Result A -> list Event -> Session -> Prop) : Prop :=
  exists res new ses',
    c ses = (res, ses') /\ frame new (self ses) (self ses') /\ Q res new ses'.

End Middleware.

(** ** Observations on the record of calls *)

Local Open Scope list_scope.

(** The rules a load call added to the running total: its count when the
    load succeeded. *)
Definition loaded (e : Event) : Z :=
  match e with
  | Rules_loadFromUri _ n | Rules_load _ n => if n <? 0 then 0 else n
  | _ => 0
  end.

Definition is_loadFromUri (e : Event) : bool :=
  match e with Rules_loadFromUri _ _ => true | _ => false end.

Definition is_load (e : Event) : bool :=
  match e with Rules_load _ _ => true | _ => false end.

(** The inspection phases, and the call that completes each. *)
Inductive Phase : Type :=
| Connection | URI | RequestHeaders | RequestBody | ResponseHeaders | ResponseBody.

Definition completes (c : TxCall) : option Phase :=
  match c with
  | processConnection _ _ _ _ => Some Connection
  | processURI _ _ _ => Some URI
  | processRequestHeaders => Some RequestHeaders
  | processRequestBody => Some RequestBody
  | processResponseHeaders _ _ => Some ResponseHeaders
  | processResponseBody => Some ResponseBody
  | _ => None
  end.

Definition request_side (p : Phase) : bool :=
  match p with
  | Connection | URI | RequestHeaders | RequestBody => true
  | ResponseHeaders | ResponseBody => false
  end.

(** The milestones of a request: a phase completed, the handler invoked. *)
Inductive Mark : Type :=
| Completed (p : Phase)
| Handler.

Definition mark (e : Event) : list Mark :=
  match e with
  | Tx c => match completes c with Some p => [Completed p] | None => [] end
  | Get_response _ => [Handler]
  | _ => []
  end.

Definition marks (l : list Event) : list Mark := flat_map mark l.

Definition timeline : list Mark :=
  [Completed Connection; Completed URI; Completed RequestHeaders;
   Completed RequestBody; Handler; Completed ResponseHeaders;
   Completed ResponseBody].

Definition is_check (e : Event) : bool :=
  match e with Tx_intervention _ _ => true | _ => false end.

(** The intervention checks made, as a count. *)
Definition checks_made (l : list Event) : nat := List.length (filter is_check l).

(** A check that yields a disruptive verdict. *)
Definition halts (e : Event) : bool :=
  match e with
  | Tx_intervention pending it => pending && disruptive it
  | _ => false
  end.

Definition is_get_response (e : Event) : bool :=
  match e with Get_response _ => true | _ => false end.

(** The last phase completed among some milestones. *)
Definition last_completed (ms : list Mark) : option Phase :=
  fold_left (fun acc m => match m with Completed p => Some p | Handler => acc end)
            ms None.

(** How far along the timeline the first [j] stages lead. *)
Definition reach (j : nat) : nat :=
  match j with
  | 0 => 0 | 1 => 1 | 2 => 2 | 3 => 3 | 4 => 4 | 5 => 6 | _ => 7
  end%nat.

(** The invocations of the handler among some calls. *)
Definition handler_calls (l : list Event) : list Event :=
  flat_map (fun e => if is_get_response e then [e] else []) l.

(** The response a disruptive verdict is translated to, when Django accepts
    it. *)
Definition response_of (it : ModSecurityIntervention) : Response :=
  match url it with
  | Some redirect_to => HttpResponseRedirect redirect_to
  | None => HttpResponse (status it)
  end.

(** The calls of the first three phases up to each check, for a request
    whose connection data is [conn]. *)
Definition early_stages (request : HttpRequest) (conn : string * Z * string * Z)
  : list (list Event) :=
  [ [Tx (processConnection (fst (fst (fst conn))) (snd (fst (fst conn)))
                           (snd (fst conn)) (snd conn))];
    [Tx (processURI (path request) (method request) "1.1")];
    map (fun kv => Tx (addRequestHeader (fst kv) (snd kv))) (_iter_headers request)
      ++ [Tx processRequestHeaders] ].

(** The calls of the request phases: the body phase is there when the body
    can be read. *)
Definition request_stages (request : HttpRequest) (conn : string * Z * string * Z)
  : list (list Event) :=
  early_stages request conn
  ++ match body request with
     | Return data => [ [Tx (appendRequestBody data); Tx processRequestBody] ]
     | Raise _ => []
     end.

(** The calls of the two response phases on the handler's [response]. *)
Definition response_calls (response : HandlerResponse) : list (list Event) :=
  [ map (fun kv => Tx (addResponseHeader (fst kv) (snd kv))) (items response)
      ++ [Tx (processResponseHeaders (status_code response) "HTTP/1.1")];
    [Tx (appendResponseBody (fst (getvalue response))); Tx processResponseBody] ].

(** The same, from the invocation of the handler on. *)
Definition response_stages (request : HttpRequest) (response : HandlerResponse)
  : list (list Event) :=
  [ Get_response request
      :: map (fun kv => Tx (addResponseHeader (fst kv) (snd kv))) (items response)
      ++ [Tx (processResponseHeaders (status_code response) "HTTP/1.1")];
    [Tx (appendResponseBody (fst (getvalue response))); Tx processResponseBody] ].

(** The stages of a request: all six when its body can be read, the first
    three when it cannot. *)
Definition stages (request : HttpRequest) (conn : string * Z * string * Z)
           (response : HandlerResponse) : list (list Event) :=
  request_stages request conn
  ++ match body request with
     | Return _ => response_stages request response
     | Raise _ => []
     end.

(** The stages themselves contain no intervention check. *)
Definition unchecked (st : list (list Event)) : Prop :=
  Forall (Forall (fun e => is_check e = false)) st.

Section Verdicts.

Context {H : Host}.

(** The translation of a disruptive verdict: the response, or what its
    constructor raises. *)
Definition translate (it : ModSecurityIntervention) : Result Response :=
  match url it with
  | Some redirect_to => new_HttpResponseRedirect redirect_to
  | None => new_HttpResponse (status it)
  end.

(** What an intervention check returns for a disruptive verdict. *)
Definition answered (t : Result Response) : Result (option Response) :=
  match t with
  | Return response => Return (Some response)
  | Raise e => Raise e
  end.

(** How a request that met no disruptive verdict ends: with what reading
    its body raised, or with the handler's response object as [getvalue]
    left it. *)
Definition passed (request : HttpRequest) (original_response : HandlerResponse)
  : Result Response :=
  match body request with
  | Return _ => Return (Original (snd (getvalue original_response)))
  | Raise e => Raise e
  end.

(** How a call ends: with the translation of the verdict that stopped it, or
    else as a request that passed. *)
Definition final (v : option (Result Response)) (request : HttpRequest)
           (original_response : HandlerResponse) : Result Response :=
  match v with
  | Some t => t
  | None => passed request original_response
  end.

(** A run of a pipeline of stages, each followed by its check: the calls it
    makes and the translation of the verdict that stopped it, if any. *)
Inductive ran
  : list (list Event) -> list Event -> option (Result Response) -> Prop :=
| ran_done : ran [] [] None
| ran_pass stage rest pending it new r :
    pending && disruptive it = false ->
    ran rest new r ->
    ran (stage :: rest) (stage ++ Tx_intervention pending it :: new) r
| ran_halt stage rest it :
    disruptive it = true ->
    ran (stage :: rest) (stage ++ [Tx_intervention true it]) (Some (translate it)).

End Verdicts.

(** *** Further observations *)

(** A call on the rules object. *)
Definition is_rules_call (e : Event) : bool :=
  match e with
  | Rules_loadFromUri _ _ | Rules_load _ _ | Rules_getParserError _ => true
  | _ => false
  end.

(** A load call the engine answered with a negative count. *)
Definition failed_load (e : Event) : bool :=
  match e with
  | Rules_loadFromUri _ n | Rules_load _ n => n <? 0
  | _ => false
  end.

Definition is_completed (m : Mark) : bool :=
  match m with Completed _ => true | Handler => false end.

(** A stage ends with the call that completes its phase. *)
Definition ends_with_completion (stage : list Event) : Prop :=
  exists init c p, stage = init ++ [Tx c] /\ completes c = Some p.

(** The calls other than the intervention checks: what is submitted to the
    engine, and the invocation of the handler. *)
Definition submissions (l : list Event) : list Event :=
  filter (fun e => negb (is_check e)) l.

Section Invariants.

Context {MS : ModSecurity}.

(** What request processing may do to the middleware object: extend the log
    with INFO records and the record of calls with calls that are not on the
    rules object, and nothing else. *)
Definition quiet_step (s s' : Self) : Prop :=
  rules s' = rules s /\
  rule_files s' = rule_files s /\
  rule_lines s' = rule_lines s /\
  _rules_count s' = _rules_count s /\
  get_response s' = get_response s /\
  (exists extra,
      logger s' = logger s ++ extra /\ Forall (fun r => fst r = INFO) extra) /\
  (exists new,
      calls s' = calls s ++ new /\ Forall (fun e => is_rules_call e = false) new).

(** What a load may do to the middleware object: make calls on the rules
    object, add the counts of the loads that succeeded to the running total,
    and log one warning for each load that failed. *)
Definition accounted (s s' : Self) : Prop :=
  exists new extra,
    calls s' = calls s ++ new /\
    logger s' = logger s ++ extra /\
    rules_count s' = rules_count s + sum (map loaded new) /\
    Forall (fun e => is_rules_call e = true) new /\
    Forall (fun r => fst r = WARNING) extra /\
    List.length extra = List.length (filter failed_load new).

(** [c] only makes quiet steps, whether it returns or raises. *)
Definition quiet {A : Type} (c : M Session A) : Prop :=
  forall ses, quiet_step (self ses) (self (snd (c ses))).

End Invariants.

(** ** A test double

    An engine that records nothing but what its verdicts need, a file system
    with three rule files of which one is malformed, and a handler: the
    concrete collaborators on which the theorems below are instantiated. *)

Module Demo.

Fixpoint digits (s : string) (acc : Z) : option Z :=
  match s with
  | EmptyString => Some acc
  | String c s' =>
      let n := Z.of_nat (nat_of_ascii c) in
      if (48 <=? n) && (n <=? 57) then digits s' (10 * acc + (n - 48)) else None
  end.

(** [int] on a string of decimal digits. *)
Definition decimal (s : string) : option Z :=
  match s with
  | EmptyString => None
  | _ => digits s 0
  end.

(** The scheme of a URL, as far as the redirect check needs it: what stands
    before the first colon, when no slash, question mark or hash comes
    earlier. *)
Fixpoint scheme_of (url : string) : option string :=
  match url with
  | EmptyString => None
  | String c url' =>
      if Ascii.eqb c ":" then Some EmptyString
      else if Ascii.eqb c "/" || Ascii.eqb c "?" || Ascii.eqb c "#" then None
      else option_map (String c) (scheme_of url')
  end.

(** The check of [HttpResponseRedirect] on lower-case schemes. *)
Definition refuses (url : string) : option Exception :=
  match scheme_of url with
  | Some scheme =>
      if String.eqb scheme "" || String.eqb scheme "http"
         || String.eqb scheme "https" || String.eqb scheme "ftp"
      then None
      else Some (DisallowedRedirect url)
  | None => None
  end.

Definition denied : ModSecurityIntervention :=
  {| status := 403; url := None; log := Some "Access denied"%string;
     disruptive := true |}.

(** The rules object is the last parser error; a transaction is blocked once
    the URI [/admin] has been submitted.  A file whose name starts with
    [broken] and a text that does not start with [SecRule] fail to load. *)
Definition engine : ModSecurity :=
  {| Rules := string;
     Transaction := bool;
     Rules_new := EmptyString;
     loadFromUri uri r :=
       if startswith uri "broken" then (-1, "Rules error. File: broken.conf"%string)
       else (2, r);
     load text r :=
       if startswith text "SecRule" then (1, r)
       else (-1, "Invalid input"%string);
     getParserError r := r;
     Transaction_new _ := false;
     ModSecurityIntervention_new :=
       {| status := 200; url := None; log := None; disruptive := false |};
     submit c t :=
       match c with
       | processURI uri _ _ => (String.eqb uri "/admin" || t, [])
       | _ => (t, [])
       end;
     intervention it t := if t then (true, denied, t, []) else (false, it, t, [])
  |}.

(** The same engine with another verdict for a blocked transaction. *)
Definition engine_answering (verdict : ModSecurityIntervention) : ModSecurity :=
  {| Rules := string;
     Transaction := bool;
     Rules_new := EmptyString;
     loadFromUri uri r :=
       if startswith uri "broken" then (-1, "Rules error. File: broken.conf"%string)
       else (2, r);
     load text r :=
       if startswith text "SecRule" then (1, r)
       else (-1, "Invalid input"%string);
     getParserError r := r;
     Transaction_new _ := false;
     ModSecurityIntervention_new :=
       {| status := 200; url := None; log := None; disruptive := false |};
     submit c t :=
       match c with
       | processURI uri _ _ => (String.eqb uri "/admin" || t, [])
       | _ => (t, [])
       end;
     intervention it t := if t then (true, verdict, t, []) else (false, it, t, [])
  |}.

(** A disruptive verdict with a status Django refuses, one with a redirect
    it refuses, and one with a redirect it accepts. *)
Definition status_zero : ModSecurityIntervention :=
  {| status := 0; url := None; log := Some "Matched"%string; disruptive := true |}.

Definition script_redirect : ModSecurityIntervention :=
  {| status := 302; url := Some "javascript:alert(1)"%string; log := None;
     disruptive := true |}.

Definition moved : ModSecurityIntervention :=
  {| status := 302; url := Some "https://example.org/blocked"%string; log := None;
     disruptive := true |}.

Definition host : Host :=
  {| glob pattern :=
       if String.eqb pattern "rules/*.conf"
       then ["rules/a.conf"; "broken.conf"; "rules/b.conf"]%string
       else [pattern];
     int := decimal;
     settings :=
       {| MODSECURITY_RULE_FILES := Str "rules/*.conf";
          MODSECURITY_RULES := StrList ["SecRuleEngine On"; "SecRule ARGS x deny"]%string;
          USE_X_FORWARDED_PORT := false |};
     HttpResponseRedirect_raises := refuses
  |}.

Definition page : HandlerResponse :=
  {| items := [("Content-Type", "text/html")]%string;
     status_code := 200;
     content := Bytes "<p>hello</p>"%string |}.

(** A streaming response with two chunks still to yield. *)
Definition stream : HandlerResponse :=
  {| items := [("Content-Type", "text/html")]%string;
     status_code := 200;
     content := Streaming ["<p>hel"; "lo</p>"]%string |}.

Definition streaming_view (request : HttpRequest) : HandlerResponse := stream.

Definition view (request : HttpRequest) : HandlerResponse := page.

Definition environ : dict string :=
  [("REMOTE_ADDR", "10.0.0.7"); ("REMOTE_PORT", "54321");
   ("SERVER_NAME", "example.org"); ("SERVER_PORT", "8000");
   ("HTTP_HOST", "example.org"); ("CONTENT_LENGTH", "0")]%string.

Definition home : HttpRequest :=
  {| META := environ; path := "/"; method := "GET"; body := Return EmptyString |}.

Definition admin : HttpRequest :=
  {| META := environ; path := "/admin"; method := "GET";
     body := Return EmptyString |}.


Definition upload : HttpRequest :=
  {| META := environ; path := "/upload"; method := "POST";
     body := Raise RequestDataTooBig |}.

(** A middleware object that has loaded nothing yet. *)
Definition fresh : @Self engine :=
  {| get_response := view; rules := (EmptyString : @Rules engine);
     rule_files := None; rule_lines := None; _rules_count := 0;
     logger := []; calls := [] |}.

(** The same object in front of a handler that streams. *)
Definition fresh_streaming : @Self engine :=
  {| get_response := streaming_view; rules := (EmptyString : @Rules engine);
     rule_files := None; rule_lines := None; _rules_count := 0;
     logger := []; calls := [] |}.

(** The same object on the engine that answers with [verdict]. *)
Definition fresh_answering (verdict : ModSecurityIntervention)
  : @Self (engine_answering verdict) :=
  {| get_response := view;
     rules := (EmptyString : @Rules (engine_answering verdict));
     rule_files := None; rule_lines := None; _rules_count := 0;
     logger := []; calls := [] |}.

(** A file system on which no pattern matches, with a pattern and an empty
    text configured. *)
Definition nothing_to_load : Host :=
  {| glob pattern := [];
     int := decimal;
     settings :=
       {| MODSECURITY_RULE_FILES := StrList ["missing/*.conf"%string];
          MODSECURITY_RULES := Str EmptyString;
          USE_X_FORWARDED_PORT := false |};
     HttpResponseRedirect_raises := refuses
  |}.

(** The same runtime with neither setting. *)
Definition unconfigured : Host :=
  with_settings host
    {| MODSECURITY_RULE_FILES := Unset; MODSECURITY_RULES := Unset;
       USE_X_FORWARDED_PORT := false |}.

End Demo.

(** * Properties *)

(** ** Running monadic code *)

Lemma bind_Return {S A B : Type} (c : M S A) (k : A -> M S B) (s s' : S) (a : A) :
  c s = (Return a, s') -> bind c k s = k a s'.
Proof. intros E. unfold bind. now rewrite E. Qed.
Arguments bind_Return {S A B c} k {s s' a} _.

Lemma for_each_app {S A : Type} (l1 l2 : list A) (body : A -> M S unit) (s s1 : S) :
  for_each l1 body s = (Return tt, s1) ->
  for_each (l1 ++ l2) body s = for_each l2 body s1.
Proof.
  revert s. induction l1 as [|x l1 IH]; intros s E; simpl in *.
  - unfold ret in E. now inversion E.
  - unfold bind in *. destruct (body x s) as [[[]|e] s0]; [|discriminate].
    now apply IH.
Qed.
Arguments for_each_app {S A l1} l2 {body s s1} _.

Lemma sum_app (l1 l2 : list Z) : sum (l1 ++ l2) = sum l1 + sum l2.
Proof. induction l1 as [|x l1 IH]; simpl; [reflexivity | rewrite IH; lia]. Qed.

(** ** Loading rules *)

Section Loading.

Context {MS : ModSecurity} {H : Host}.

Lemma load_outcomes_paths (paths : list string) (r : Rules) :
  map outcome_path (fst (load_outcomes paths r)) = paths.
Proof.
  revert r. induction paths as [|p paths IH]; intros r; simpl; [reflexivity|].
  destruct (loadFromUri p r) as [n r']. specialize (IH r').
  destruct (load_outcomes paths r') as [outs r'']. simpl in *. now rewrite IH.
Qed.

Lemma load_outcomes_app (l1 l2 : list string) (r : Rules) :
  load_outcomes (l1 ++ l2) r =
  (fst (load_outcomes l1 r) ++ fst (load_outcomes l2 (snd (load_outcomes l1 r))),
   snd (load_outcomes l2 (snd (load_outcomes l1 r)))).
Proof.
  revert r. induction l1 as [|p l1 IH]; intros r; simpl.
  - now destruct (load_outcomes l2 r).
  - destruct (loadFromUri p r) as [n r']. rewrite IH.
    destruct (load_outcomes l1 r') as [o1 r1]. simpl.
    now destruct (load_outcomes l2 r1).
Qed.

Lemma loads_frame_nil (s : Self) : loads_frame [] (rules s) s s.
Proof.
  unfold loads_frame; simpl. rewrite !app_nil_r, Z.add_0_r. tauto.
Qed.

Lemma loads_frame_app outs1 outs2 r1 r2 (s s1 s2 : Self) :
  loads_frame outs1 r1 s s1 -> loads_frame outs2 r2 s1 s2 ->
  loads_frame (outs1 ++ outs2) r2 s s2.
Proof.
  unfold loads_frame.
  intros (R1 & C1 & L1 & E1 & G1 & F1 & T1) (R2 & C2 & L2 & E2 & G2 & F2 & T2).
  rewrite !filter_app, !map_app, sum_app, flat_map_app.
  rewrite C2, C1, L2, L1, E2, E1, G2, G1, F2, F1, T2, T1, <- !app_assoc.
  repeat split; try assumption; lia.
Qed.

Lemma load_file_run (rule_file : string) (s : Self) :
  exists s',
    load_file rule_file s = (Return tt, s') /\
    loads_frame (fst (load_outcomes [rule_file] (rules s)))
                (snd (load_outcomes [rule_file] (rules s))) s s'.
Proof.
  unfold load_file, bind, rules_loadFromUri, load_outcomes.
  destruct (loadFromUri rule_file (rules s)) as [n r] eqn:E.
  unfold loads_frame, succeeded, failed, file_events, file_warning, failed,
    outcome_count, outcome_path, outcome_error; simpl.
  destruct (n <? 0) eqn:N; simpl; eexists; (split; [reflexivity|]); simpl;
    rewrite ?app_nil_r, ?Z.add_0_r, <- ?app_assoc; simpl; repeat split; lia.
Qed.

Lemma for_each_load_file (paths : list string) (s : Self) :
  exists s',
    for_each paths load_file s = (Return tt, s') /\
    loads_frame (fst (load_outcomes paths (rules s)))
                (snd (load_outcomes paths (rules s))) s s'.
Proof.
  revert s. induction paths as [|p paths IH]; intros s.
  - exists s. split; [reflexivity|]. apply loads_frame_nil.
  - destruct (load_file_run p s) as (s1 & E1 & F1).
    destruct (IH s1) as (s2 & E2 & F2).
    exists s2. split.
    + simpl for_each. now rewrite (bind_Return _ E1).
    + change (p :: paths) with ([p] ++ paths). rewrite load_outcomes_app.
      assert (R1 : rules s1 = snd (load_outcomes [p] (rules s))) by apply F1.
      rewrite <- R1. simpl fst; simpl snd.
      eapply loads_frame_app; eassumption.
Qed.

Lemma for_each_glob (rule_files : list string) (s : Self) :
  for_each rule_files (fun pattern => for_each (glob pattern) load_file) s =
  for_each (expanded rule_files) load_file s.
Proof.
  revert s. induction rule_files as [|pattern rule_files IH]; intros s.
  - reflexivity.
  - unfold expanded in *. simpl flat_map.
    destruct (for_each_load_file (glob pattern) s) as (s1 & E1 & _).
    rewrite (for_each_app _ E1). simpl for_each.
    rewrite (bind_Return _ E1). apply IH.
Qed.

Lemma load_rule_files_run (rule_files : list string) (s : Self) :
  let outs := fst (load_outcomes (expanded rule_files) (rules s)) in
  exists s',
    load_rule_files rule_files s =
      (Return (sum (map outcome_count (filter succeeded outs))), s') /\
    loads_frame outs (snd (load_outcomes (expanded rule_files) (rules s))) s s'.
Proof.
  intros outs.
  destruct (for_each_load_file (expanded rule_files) s) as (s1 & E1 & F1).
  exists s1. split; [|exact F1].
  unfold load_rule_files.
  change (bind (gets rules_count)
            (fun before_count =>
               bind (for_each rule_files
                       (fun pattern => for_each (glob pattern) load_file))
                    (fun _ => bind (gets rules_count)
                                (fun after_count => ret (after_count - before_count)))) s
          = (Return (sum (map outcome_count (filter succeeded outs))), s1)).
  unfold bind at 1. unfold gets at 1.
  rewrite (bind_Return _ (eq_trans (for_each_glob rule_files s) E1)).
  unfold bind, gets, ret, rules_count.
  destruct F1 as (_ & C & _). rewrite C. f_equal. f_equal. fold outs. lia.
Qed.

Lemma sum_succeeded_nonneg (outs : list (string * Z * string)) :
  0 <= sum (map outcome_count (filter succeeded outs)).
Proof.
  induction outs as [|o outs IH]; simpl; [lia|].
  unfold succeeded at 1, failed. destruct (outcome_count o <? 0) eqn:N; simpl; lia.
Qed.

Lemma loads_of_file_events (outs : list (string * Z * string)) :
  filter is_loadFromUri (flat_map file_events outs) =
  map (fun o => Rules_loadFromUri (outcome_path o) (outcome_count o)) outs.
Proof.
  induction outs as [|o outs IH]; simpl; [reflexivity|].
  rewrite filter_app, IH. unfold file_events.
  destruct (failed o); reflexivity.
Qed.

End Loading.

(** ** The inspection pipeline *)

Section Pipeline.

Context {MS : ModSecurity} {H : Host}.

Lemma frame_refl (s : Self) : frame [] s s.
Proof. unfold frame. rewrite app_nil_r. tauto. Qed.

Lemma frame_trans (n1 n2 : list Event) (s s1 s2 : Self) :
  frame n1 s s1 -> frame n2 s1 s2 -> frame (n1 ++ n2) s s2.
Proof.
  unfold frame. intros (C1 & N1 & R1 & G1) (C2 & N2 & R2 & G2).
  rewrite C2, C1, N2, N1, R2, R1, G2, G1, app_assoc. tauto.
Qed.

Lemma run_eval {A : Type} (r : Result A) (ses : Session)
      (Q : Result A -> list Event -> Session -> Prop) :
  Q r [] ses -> run (eval r) ses Q.
Proof.
  intros HQ. exists r, [], ses. split; [reflexivity|].
  split; [apply frame_refl | exact HQ].
Qed.

Lemma run_ret {A : Type} (a : A) (ses : Session)
      (Q : Result A -> list Event -> Session -> Prop) :
  Q (Return a) [] ses -> run (ret a) ses Q.
Proof. apply (run_eval (Return a)). Qed.

(** Sequencing: what follows runs when the first part returns, and the whole
    ends as the first part when that raises. *)
Lemma run_bind {A B : Type} (c : M Session A) (k : A -> M Session B)
      (ses : Session) (Q : Result B -> list Event -> Session -> Prop) :
  run c ses (fun res new1 ses1 =>
    frame new1 (self ses) (self ses1) ->
    match res with
    | Return a => run (k a) ses1 (fun b new2 ses2 => Q b (new1 ++ new2) ses2)
    | Raise e => Q (Raise e) new1 ses1
    end) ->
  run (bind c k) ses Q.
Proof.
  intros (res & new1 & ses1 & E1 & F1 & K). specialize (K F1).
  destruct res as [a|e].
  - destruct K as (b & new2 & ses2 & E2 & F2 & HQ).
    exists b, (new1 ++ new2), ses2. split; [|split].
    + now rewrite (bind_Return _ E1).
    + eapply frame_trans; eassumption.
    + exact HQ.
  - exists (Raise e), new1, ses1. split; [|split]; try assumption.
    unfold bind. now rewrite E1.
Qed.

Lemma run_tx (c : TxCall) (ses : Session)
      (Q : Result unit -> list Event -> Session -> Prop) :
  (forall ses', Q (Return tt) [Tx c] ses') -> run (tx c) ses Q.
Proof.
  intros HQ. unfold run, tx.
  destruct (submit c (transaction ses)) as [t msgs].
  do 3 eexists. split; [reflexivity|]. split; [|apply HQ].
  unfold frame; simpl. tauto.
Qed.

Lemma run_for_each {A : Type} (l : list A) (body : A -> M Session unit)
      (ev : A -> Event) (ses : Session)
      (Q : Result unit -> list Event -> Session -> Prop) :
  (forall x ses0,
      run (body x) ses0 (fun res new _ => res = Return tt /\ new = [ev x])) ->
  (forall ses', Q (Return tt) (map ev l) ses') ->
  run (for_each l body) ses Q.
Proof.
  intros Hbody. revert ses Q.
  induction l as [|x l IH]; intros ses Q HQ; simpl.
  - apply run_ret, HQ.
  - apply run_bind.
    destruct (Hbody x ses) as (a & new & ses1 & E & F & -> & ->).
    exists (Return tt), [ev x], ses1. split; [exact E|]. split; [exact F|].
    intros _. apply IH. intros ses'. apply HQ.
Qed.

Lemma run_get_response (request : HttpRequest) (ses : Session)
      (Q : Result HandlerResponse -> list Event -> Session -> Prop) :
  (forall ses',
      Q (Return (get_response (self ses) request)) [Get_response request] ses') ->
  run (call_get_response request) ses Q.
Proof.
  intros HQ. unfold run, call_get_response.
  do 3 eexists. split; [reflexivity|]. split; [|apply HQ].
  unfold frame; simpl. tauto.
Qed.

(** One intervention check: a single query, and the translation of the
    verdict exactly when it is disruptive. *)
Lemma run_process_intervention (ses : Session)
      (Q : Result (option Response) -> list Event -> Session -> Prop) :
  (forall pending it ses',
      Q (if pending && disruptive it then answered (translate it) else Return None)
        [Tx_intervention pending it] ses') ->
  run process_intervention ses Q.
Proof.
  intros HQ. unfold run, process_intervention, bind, tx_intervention, eval.
  destruct (intervention ModSecurityIntervention_new (transaction ses))
    as [[[pending it] t] msgs].
  specialize (HQ pending it). unfold translate, answered in HQ.
  destruct pending; simpl in *.
  - destruct (log it) as [msg|]; destruct (disruptive it); simpl in *;
      try (destruct (match url it with
                     | Some redirect_to => new_HttpResponseRedirect redirect_to
                     | None => new_HttpResponse (status it)
                     end) as [response|e]);
      (do 3 eexists; split; [reflexivity|]; split; [|apply HQ]);
      unfold frame; simpl; tauto.
  - do 3 eexists. split; [reflexivity|]. split; [|apply HQ].
    unfold frame; simpl; tauto.
Qed.

(** *** Runs of a pipeline of stages *)

Lemma ran_eq (st : list (list Event)) (new new' : list Event)
      (r : option (Result Response)) :
  ran st new r -> new = new' -> ran st new' r.
Proof. now intros R <-. Qed.

Lemma ran_app_pass (st1 st2 : list (list Event)) (new1 new2 : list Event)
      (r : option (Result Response)) :
  ran st1 new1 None -> ran st2 new2 r -> ran (st1 ++ st2) (new1 ++ new2) r.
Proof.
  intros R1 R2. remember None as v eqn:V.
  induction R1 as [|stage rest pending it new r1 Q R1 IH|]; simpl.
  - exact R2.
  - rewrite <- app_assoc. simpl. apply ran_pass; [exact Q | now apply IH].
  - discriminate.
Qed.

Lemma ran_app_halt (st1 st2 : list (list Event)) (new : list Event)
      (x : Result Response) :
  ran st1 new (Some x) -> ran (st1 ++ st2) new (Some x).
Proof.
  intros R. remember (Some x) as v eqn:V.
  induction R as [|stage rest pending it new r1 Q R IH|]; simpl.
  - discriminate.
  - apply ran_pass; [exact Q | now apply IH].
  - apply ran_halt. assumption.
Qed.

Lemma ran_cons_event (e : Event) (stage : list Event) (rest : list (list Event))
      (new : list Event) (r : option (Result Response)) :
  ran (stage :: rest) new r -> ran ((e :: stage) :: rest) (e :: new) r.
Proof.
  intros R. inversion R; subst.
  - change (e :: stage ++ Tx_intervention pending it :: new0)
      with ((e :: stage) ++ Tx_intervention pending it :: new0).
    now apply ran_pass.
  - change (e :: stage ++ [Tx_intervention true it])
      with ((e :: stage) ++ [Tx_intervention true it]).
    now apply ran_halt.
Qed.

(** *** The two sub-pipelines and the call *)

Ltac halted V :=
  let P := fresh "P" in let D := fresh "D" in
  apply andb_prop in V; destruct V as [P D]; subst.

Ltac same_calls := simpl; rewrite <- ?app_assoc; simpl; reflexivity.

(** The check that follows a stage: when its verdict is disruptive the run
    ends with the translation, [stops] being the run up to there. *)
Ltac checked b it V stops :=
  apply run_bind, run_process_intervention; intros b it ? _;
  destruct (b && disruptive it) eqn:V;
  [ halted V;
    let T := fresh "T" in
    destruct (translate it) eqn:T; unfold answered; cbv beta iota;
    [apply run_ret|];
    (exists (Some (translate it)); split;
     [ eapply ran_eq; [stops | same_calls]
     | cbv beta iota; unfold answered; rewrite ?T; reflexivity ])
  | cbv beta iota ].

Ltac submitted := apply run_bind, run_tx; intros ? _; cbv beta iota.

Lemma run_request_header (kv : string * string) (ses : Session) :
  run ((fun '(key, value) => tx (addRequestHeader key value)) kv) ses
      (fun res new _ =>
         res = Return tt /\ new = [Tx (addRequestHeader (fst kv) (snd kv))]).
Proof. destruct kv as [key value]. apply run_tx. split; reflexivity. Qed.

Lemma run_response_header (kv : string * string) (ses : Session) :
  run ((fun '(field, value) => tx (addResponseHeader field value)) kv) ses
      (fun res new _ =>
         res = Return tt /\ new = [Tx (addResponseHeader (fst kv) (snd kv))]).
Proof. destruct kv as [field value]. apply run_tx. split; reflexivity. Qed.

(** [process_request] on a request whose connection data evaluates: a run of
    the request stages, which ends with the translation of a disruptive
    verdict, or else with [None] or with what reading the body raised. *)
Lemma run_process_request (request : HttpRequest) (conn : string * Z * string * Z)
      (ses : Session) :
  processConnection_args request = Return conn ->
  run (process_request request) ses
      (fun res new _ =>
         exists v,
           ran (request_stages request conn) new v /\
           res = match v with
                 | Some t => answered t
                 | None => match body request with
                           | Return _ => Return None
                           | Raise e => Raise e
                           end
                 end).
Proof.
  intros A. unfold process_request. rewrite A.
  destruct conn as [[[remote_addr port] server_name] server_port].
  unfold request_stages, early_stages. cbn [fst snd app].
  apply run_bind, run_eval. intros _. cbv beta iota.
  submitted.
  checked b1 it1 V1 ltac:(apply ran_halt; assumption).
  submitted.
  checked b2 it2 V2
    ltac:(apply ran_pass; [exact V1 | apply ran_halt; assumption]).
  apply run_bind.
  apply run_for_each
    with (ev := fun kv => Tx (addRequestHeader (fst kv) (snd kv)));
    [intros; apply run_request_header|]. intros ? _. cbv beta iota.
  submitted.
  checked b3 it3 V3
    ltac:(apply ran_pass;
          [exact V1 | apply ran_pass; [exact V2 | apply ran_halt; assumption]]).
  apply run_bind, run_eval. intros _.
  destruct (body request) as [data|e] eqn:B.
  - submitted. submitted.
    apply run_bind, run_process_intervention. intros b4 it4 ? _.
    destruct (b4 && disruptive it4) eqn:V4.
    + halted V4. destruct (translate it4) eqn:T4; unfold answered; cbv beta iota;
        [apply run_ret|];
        (exists (Some (translate it4)); split;
         [ eapply ran_eq;
           [ apply ran_pass;
             [ exact V1
             | apply ran_pass;
               [ exact V2
               | apply ran_pass; [exact V3 | apply ran_halt; assumption] ] ]
           | same_calls ]
         | cbv beta iota; unfold answered; rewrite ?T4; reflexivity ]).
    + cbv beta iota. apply run_ret. exists None. split; [|reflexivity].
      eapply ran_eq;
        [ apply ran_pass;
          [ exact V1
          | apply ran_pass;
            [ exact V2
            | apply ran_pass;
              [exact V3 | apply ran_pass; [exact V4 | apply ran_done]] ] ]
        | same_calls ].
  - exists None. split; [|reflexivity].
    eapply ran_eq;
      [ apply ran_pass;
        [ exact V1
        | apply ran_pass; [exact V2 | apply ran_pass; [exact V3 | apply ran_done]] ]
      | same_calls ].
Qed.

Lemma run_conseq {A : Type} (c : M Session A) (ses : Session)
      (Q Q' : Result A -> list Event -> Session -> Prop) :
  run c ses Q ->
  (forall a new ses', frame new (self ses) (self ses') -> Q a new ses' -> Q' a new ses') ->
  run c ses Q'.
Proof.
  intros (a & new & ses' & E & F & HQ) W.
  exists a, new, ses'. split; [exact E|]. split; [exact F|]. now apply W.
Qed.

(** [process_response]: a run of the two response stages, which ends with
    the translation of a disruptive verdict, or else with the handler's
    response object as [getvalue] left it. *)
Lemma run_process_response (request : HttpRequest)
      (original_response : HandlerResponse) (ses : Session) :
  run (process_response request original_response) ses
      (fun res new _ =>
         exists v,
           ran (response_calls original_response) new v /\
           res = match v with
                 | Some t => t
                 | None => Return (Original (snd (getvalue original_response)))
                 end).
Proof.
  unfold process_response, response_calls.
  apply run_bind.
  apply run_for_each
    with (ev := fun kv => Tx (addResponseHeader (fst kv) (snd kv)));
    [intros; apply run_response_header|]. intros ? _. cbv beta iota.
  submitted.
  checked b5 it5 V5 ltac:(apply ran_halt; assumption).
  apply run_bind, run_ret. intros _. cbv beta iota.
  destruct (getvalue original_response) as [data drained] eqn:G.
  submitted. submitted.
  apply run_bind, run_process_intervention. intros b6 it6 ? _.
  destruct (b6 && disruptive it6) eqn:V6.
  - halted V6. destruct (translate it6) eqn:T6; unfold answered; cbv beta iota;
      [apply run_ret|];
      (exists (Some (translate it6)); split;
       [ eapply ran_eq;
         [apply ran_pass; [exact V5 | apply ran_halt; assumption] | same_calls]
       | cbv beta iota; rewrite ?T6; reflexivity ]).
  - cbv beta iota. apply run_ret. exists None. split; [|reflexivity].
    eapply ran_eq;
      [apply ran_pass; [exact V5 | apply ran_pass; [exact V6 | apply ran_done]]
      | same_calls].
Qed.

Lemma run_handle (request : HttpRequest) (conn : string * Z * string * Z)
      (ses : Session) :
  processConnection_args request = Return conn ->
  run (handle request) ses
      (fun res new _ =>
         exists v,
           ran (stages request conn (get_response (self ses) request)) new v /\
           res = final v request (get_response (self ses) request)).
Proof.
  intros A. unfold handle, stages. apply run_bind.
  eapply run_conseq; [apply run_process_request, A|].
  intros res new1 ses1 _ (v1 & R1 & ->) F1.
  destruct v1 as [t|].
  - destruct t as [response|e]; unfold answered; cbv beta iota;
      [apply run_ret|];
      (eexists; split;
       [rewrite ?app_nil_r; apply ran_app_halt; exact R1 | reflexivity]).
  - unfold final, passed.
    destruct (body request) as [data|e] eqn:B.
    + apply run_bind, run_get_response. intros ses2 _.
      assert (G : get_response (self ses1) = get_response (self ses)) by apply F1.
      rewrite G.
      eapply run_conseq; [apply run_process_response|].
      intros res new2 ses3 _ (v & R2 & ->).
      exists v. split; [|reflexivity].
      apply ran_app_pass; [exact R1|].
      apply (ran_cons_event (Get_response request)) in R2. exact R2.
    + exists None. split; [|reflexivity]. now rewrite !app_nil_r.
Qed.

(** A call whose connection data evaluates: the calls it makes are a run of
    the stages of the request, after the creation of the transaction. *)
Lemma call_runs (request : HttpRequest) (conn : string * Z * string * Z) (s : Self) :
  processConnection_args request = Return conn ->
  exists v new s',
    __call__ request s = (final v request (get_response s request), s') /\
    frame (Transaction_init :: new) s s' /\
    ran (stages request conn (get_response s request)) new v.
Proof.
  intros A. unfold __call__.
  pose proof (@run_handle request conn
                {| self := emit Transaction_init s;
                   transaction := Transaction_new (rules s) |} A) as R0.
  destruct R0 as (r & new & ses' & E & F & v & R & ->).
  rewrite E. exists v, new, (self ses'). split; [reflexivity|]. split; [|exact R].
  change (Transaction_init :: new) with ([Transaction_init] ++ new).
  eapply frame_trans; [|exact F].
  unfold frame; simpl. tauto.
Qed.

(** A call whose connection data does not evaluate raises before anything
    is submitted. *)
Lemma call_raises (request : HttpRequest) (e : Exception) (s : Self) :
  processConnection_args request = Raise e ->
  __call__ request s = (Raise e, emit Transaction_init s).
Proof.
  intros A. unfold __call__, handle, process_request, bind, eval.
  now rewrite A.
Qed.

End Pipeline.

Arguments call_runs {MS H request conn} s _.
Arguments call_raises {MS H request e} s _.

(** ** What a run of stages looks like *)

Section Runs.

Context {H : Host}.

(** A list splits in one way only at an element no earlier one is like. *)
Lemma split_at {A : Type} (P : A -> bool) (l1 l2 pre post : list A) (a e : A) :
  Forall (fun x => P x = false) l1 ->
  P e = true ->
  l1 ++ a :: l2 = pre ++ e :: post ->
  (pre = l1 /\ e = a /\ post = l2) \/
  (exists pre', pre = l1 ++ a :: pre' /\ l2 = pre' ++ e :: post).
Proof.
  intros Q Pe. revert pre. induction l1 as [|y l1 IH]; intros pre E.
  - destruct pre as [|x pre]; simpl in E; inversion E; subst.
    + left. tauto.
    + right. now exists pre.
  - inversion Q as [|? ? Py Q']; subst.
    destruct pre as [|x pre]; simpl in E; inversion E; subst.
    + congruence.
    + destruct (IH Q' pre) as [(-> & -> & ->) | (pre' & -> & ->)]; try assumption.
      * left. tauto.
      * right. now exists pre'.
Qed.
Arguments split_at {A} P {l1 l2 pre post a e} _ _ _.

Lemma checks_made_app (l1 l2 : list Event) :
  checks_made (l1 ++ l2) = (checks_made l1 + checks_made l2)%nat.
Proof. unfold checks_made. now rewrite filter_app, length_app. Qed.

Lemma checks_made_stage (stage : list Event) :
  Forall (fun e => is_check e = false) stage -> checks_made stage = 0%nat.
Proof.
  unfold checks_made. induction 1 as [|e stage Pe _ IH]; simpl; [reflexivity|].
  now rewrite Pe.
Qed.

Lemma checks_made_check (pending : bool) (it : ModSecurityIntervention)
      (l : list Event) :
  checks_made (Tx_intervention pending it :: l) = S (checks_made l).
Proof. reflexivity. Qed.

Lemma halts_is_check (e : Event) : halts e = true -> is_check e = true.
Proof. destruct e; simpl; congruence. Qed.

(** A disruptive verdict is the last call of a run, and the run ends with
    its translation. *)
Lemma ran_halt_last (st : list (list Event)) (new : list Event)
      (r : option (Result Response)) :
  ran st new r -> unchecked st ->
  forall pre post it,
    new = pre ++ Tx_intervention true it :: post ->
    disruptive it = true ->
    post = [] /\ r = Some (translate it).
Proof.
  induction 1 as [|stage rest pending it0 new r Q R IH|stage rest it0 D0];
    intros U pre post it E D.
  - destruct pre; discriminate.
  - inversion U as [|? ? Us Ur]; subst.
    destruct (split_at is_check (e:=Tx_intervention true it) Us eq_refl E)
      as [(_ & I & _) | (pre' & _ & E')].
    + inversion I; subst. simpl in Q. congruence.
    + now apply (IH Ur pre' post it).
  - inversion U as [|? ? Us Ur]; subst.
    destruct (split_at is_check (e:=Tx_intervention true it) Us eq_refl E)
      as [(_ & I & <-) | (pre' & _ & E')].
    + inversion I; subst. tauto.
    + destruct pre'; discriminate.
Qed.

(** A run that ends with no response made every check, none disruptive. *)
Lemma ran_none (st : list (list Event)) (new : list Event) :
  ran st new None -> unchecked st ->
  checks_made new = List.length st /\ Forall (fun e => halts e = false) new.
Proof.
  intros R. remember None as v eqn:V.
  induction R as [|stage rest pending it0 new r Q R IH|]; intros U.
  - split; [reflexivity | constructor].
  - inversion U as [|? ? Us Ur]; subst.
    destruct (IH eq_refl Ur) as [C F].
    rewrite checks_made_app, (checks_made_stage Us), checks_made_check.
    split; [simpl; now rewrite C|].
    apply Forall_app. split.
    + eapply Forall_impl; [|exact Us]. intros e Pe.
      destruct (halts e) eqn:He; [|reflexivity].
      apply halts_is_check in He. congruence.
    + constructor; assumption.
  - discriminate.
Qed.

(** A run that ends with a translation was cut short by a disruptive
    verdict, the last call it made. *)
Lemma ran_some (st : list (list Event)) (new : list Event) (x : Result Response) :
  ran st new (Some x) -> unchecked st ->
  exists pre it,
    new = pre ++ [Tx_intervention true it] /\ disruptive it = true /\
    x = translate it /\ Forall (fun e => halts e = false) pre /\
    (checks_made new <= List.length st)%nat.
Proof.
  intros R. remember (Some x) as v eqn:V.
  induction R as [|stage rest pending it0 new r Q R IH|stage rest it0 D0]; intros U.
  - discriminate.
  - inversion U as [|? ? Us Ur]; subst.
    destruct (IH eq_refl Ur) as (pre & it & -> & D & -> & F & C).
    exists (stage ++ Tx_intervention pending it0 :: pre), it.
    rewrite <- app_assoc. simpl. repeat split; try assumption.
    + apply Forall_app. split.
      * eapply Forall_impl; [|exact Us]. intros e Pe.
        destruct (halts e) eqn:He; [|reflexivity].
        apply halts_is_check in He. congruence.
      * constructor; assumption.
    + rewrite checks_made_app, (checks_made_stage Us), checks_made_check.
      simpl. lia.
  - inversion V; subst. inversion U as [|? ? Us Ur]; subst.
    exists stage, it0. repeat split; try assumption.
    + eapply Forall_impl; [|exact Us]. intros e Pe.
      destruct (halts e) eqn:He; [|reflexivity].
      apply halts_is_check in He. congruence.
    + rewrite checks_made_app, (checks_made_stage Us), checks_made_check.
      unfold checks_made. simpl. lia.
Qed.

(** What a run shows of anything but the checks is what the stages it went
    through show, one stage for every check made. *)
Lemma ran_projection {A : Type} (g : Event -> list A) (st : list (list Event))
      (new : list Event) (r : option (Result Response)) :
  (forall pending it, g (Tx_intervention pending it) = []) ->
  ran st new r -> unchecked st ->
  flat_map g new = flat_map g (List.concat (firstn (checks_made new) st)) /\
  (checks_made new <= List.length st)%nat.
Proof.
  intros G. induction 1 as [|stage rest pending it0 new r Q R IH|stage rest it0 D0];
    intros U.
  - split; [reflexivity | unfold checks_made; simpl; lia].
  - inversion U as [|? ? Us Ur]; subst. destruct (IH Ur) as [E C].
    rewrite checks_made_app, (checks_made_stage Us), checks_made_check.
    simpl. rewrite !flat_map_app. simpl. rewrite G, E. split; [reflexivity|].
    lia.
  - inversion U as [|? ? Us Ur]; subst.
    rewrite checks_made_app, (checks_made_stage Us), checks_made_check.
    unfold checks_made. simpl. rewrite !flat_map_app. simpl.
    rewrite G, !app_nil_r. split; [reflexivity | lia].
Qed.

(** *** The stages of a request *)

Lemma flat_map_concat {A : Type} (g : Event -> list A) (l : list (list Event)) :
  flat_map g (List.concat l) = List.concat (map (flat_map g) l).
Proof.
  induction l as [|x l IH]; simpl; [reflexivity|]. now rewrite flat_map_app, IH.
Qed.

Lemma flat_map_nil {A B : Type} (g : Event -> list A) (f : B -> Event) (l : list B) :
  (forall x, g (f x) = []) -> flat_map g (map f l) = [].
Proof.
  intros G. induction l as [|x l IH]; simpl; [reflexivity|]. now rewrite G, IH.
Qed.

Lemma Forall_map_all {B : Type} (P : Event -> Prop) (f : B -> Event) (l : list B) :
  (forall x, P (f x)) -> Forall P (map f l).
Proof. intros Pf. apply Forall_map, Forall_forall. intros x _. apply Pf. Qed.

Lemma unchecked_request_stages (request : HttpRequest)
      (conn : string * Z * string * Z) :
  unchecked (request_stages request conn).
Proof.
  unfold unchecked, request_stages, early_stages. destruct (body request);
    repeat first [ apply Forall_cons | apply Forall_nil | apply Forall_app; split
                 | apply Forall_map_all; intros | reflexivity ].
Qed.

Lemma unchecked_response_stages (request : HttpRequest) (response : HandlerResponse) :
  unchecked (response_stages request response).
Proof.
  unfold unchecked, response_stages.
  repeat first [ apply Forall_cons | apply Forall_nil | apply Forall_app; split
               | apply Forall_map_all; intros | reflexivity ].
Qed.

Lemma unchecked_stages (request : HttpRequest) (conn : string * Z * string * Z)
      (response : HandlerResponse) :
  unchecked (stages request conn response).
Proof.
  apply Forall_app. split; [apply unchecked_request_stages|].
  destruct (body request); [apply unchecked_response_stages | constructor].
Qed.

(** Six stages when the body can be read, three when it cannot. *)
Lemma stages_length (request : HttpRequest) (conn : string * Z * string * Z)
      (response : HandlerResponse) :
  List.length (stages request conn response) =
  match body request with Return _ => 6%nat | Raise _ => 3%nat end.
Proof.
  unfold stages, request_stages. destruct (body request); reflexivity.
Qed.

Lemma marks_of_stages (request : HttpRequest) (conn : string * Z * string * Z)
      (response : HandlerResponse) :
  map marks (stages request conn response) =
  firstn (List.length (stages request conn response))
         [ [Completed Connection]; [Completed URI]; [Completed RequestHeaders];
           [Completed RequestBody]; [Handler; Completed ResponseHeaders];
           [Completed ResponseBody] ].
Proof.
  rewrite stages_length.
  unfold stages, request_stages, early_stages, response_stages, marks.
  destruct (body request); simpl;
    rewrite !flat_map_app, !flat_map_nil by reflexivity; reflexivity.
Qed.

Lemma handler_calls_of_stages (request : HttpRequest)
      (conn : string * Z * string * Z) (response : HandlerResponse) :
  map handler_calls (stages request conn response) =
  firstn (List.length (stages request conn response))
         [ []; []; []; []; [Get_response request]; [] ].
Proof.
  rewrite stages_length.
  unfold stages, request_stages, early_stages, response_stages, handler_calls.
  destruct (body request); simpl;
    rewrite !flat_map_app, !flat_map_nil by reflexivity; reflexivity.
Qed.

(** The milestones of the first [j] stages are a prefix of the timeline. *)
Lemma marks_upto (request : HttpRequest) (conn : string * Z * string * Z)
      (response : HandlerResponse) (j : nat) :
  (j <= List.length (stages request conn response))%nat ->
  marks (List.concat (firstn j (stages request conn response))) =
  firstn (reach j) timeline.
Proof.
  intros J. unfold marks at 1. rewrite flat_map_concat.
  change (flat_map mark) with marks.
  rewrite <- firstn_map, marks_of_stages.
  rewrite stages_length in *.
  destruct (body request);
    destruct j as [|[|[|[|[|[|[|j]]]]]]]; try reflexivity; lia.
Qed.

(** The handler is invoked in the fifth stage and nowhere else. *)
Lemma handler_calls_upto (request : HttpRequest) (conn : string * Z * string * Z)
      (response : HandlerResponse) (j : nat) :
  (j <= List.length (stages request conn response))%nat ->
  handler_calls (List.concat (firstn j (stages request conn response))) =
  if (j <=? 4)%nat then [] else [Get_response request].
Proof.
  intros J. unfold handler_calls at 1. rewrite flat_map_concat.
  change (flat_map (fun e => if is_get_response e then [e] else []))
    with handler_calls.
  rewrite <- firstn_map, handler_calls_of_stages.
  rewrite stages_length in *.
  destruct (body request);
    destruct j as [|[|[|[|[|[|[|j]]]]]]]; try reflexivity; lia.
Qed.

Lemma In_handler_calls (q : HttpRequest) (l : list Event) :
  In (Get_response q) l -> In (Get_response q) (handler_calls l).
Proof.
  intros I. unfold handler_calls. apply in_flat_map.
  exists (Get_response q). split; [exact I | now left].
Qed.

End Runs.

(** ** Requests *)

Section Requests.

Context {MS : ModSecurity} {H : Host}.

Lemma request_side_reach (j : nat) (p : Phase) :
  last_completed (firstn (reach j) timeline) = Some p ->
  request_side p = true ->
  (j <=? 4)%nat = true.
Proof.
  destruct j as [|[|[|[|[|[|[|j]]]]]]]; simpl; intros E R; try reflexivity;
    inversion E; subst; discriminate.
Qed.

Lemma marks_snoc_check (l : list Event) (pending : bool)
      (it : ModSecurityIntervention) :
  marks (l ++ [Tx_intervention pending it]) = marks l.
Proof. unfold marks. rewrite flat_map_app. simpl. apply app_nil_r. Qed.

Lemma new_HttpResponse_accepts (code : Z) :
  100 <= code <= 599 -> new_HttpResponse code = Return (HttpResponse code).
Proof.
  intros S. unfold new_HttpResponse.
  replace ((100 <=? code) && (code <=? 599)) with true; [reflexivity|].
  symmetry. apply andb_true_intro. split; apply Z.leb_le; lia.
Qed.

Lemma new_HttpResponse_refuses (code : Z) :
  ~ 100 <= code <= 599 -> new_HttpResponse code = Raise invalid_status.
Proof.
  intros S. unfold new_HttpResponse.
  destruct ((100 <=? code) && (code <=? 599)) eqn:B; [|reflexivity].
  apply andb_prop in B. destruct B as [B1 B2].
  apply Z.leb_le in B1. apply Z.leb_le in B2. lia.
Qed.

(** The translation of a verdict, case by case. *)
Lemma translate_cases (it : ModSecurityIntervention) (result : Result Response) :
  result = translate it ->
  (forall redirect_to,
      url it = Some redirect_to ->
      HttpResponseRedirect_raises redirect_to = None ->
      result = Return (HttpResponseRedirect redirect_to)) /\
  (forall redirect_to e,
      url it = Some redirect_to ->
      HttpResponseRedirect_raises redirect_to = Some e ->
      result = Raise e) /\
  (url it = None -> 100 <= status it <= 599 ->
   result = Return (HttpResponse (status it))) /\
  (url it = None -> ~ 100 <= status it <= 599 -> result = Raise invalid_status).
Proof.
  intros ->. unfold translate, new_HttpResponseRedirect.
  split; [|split; [|split]].
  - intros u -> ->. reflexivity.
  - intros u e -> ->. reflexivity.
  - intros -> S. now apply new_HttpResponse_accepts.
  - intros -> S. now apply new_HttpResponse_refuses.
Qed.

(** C1: when the intervention check after a phase yields a disruptive verdict,
    that check is the last call of the request (no later submission,
    completion or check is made); the call ends with the response Django
    builds for the verdict, a redirect to its URL or else an empty response
    with its status, and when Django refuses to build it (a URL whose scheme
    is not allowed, a status outside 100..599) the call raises what the
    constructor raised; and when the last phase completed before the verdict
    is a request-side one the wrapped handler is not invoked at all. *)
Theorem disruptive_verdict_stops_pipeline
        (request : HttpRequest) (s s' : Self) (result : Result Response)
        (pre post : list Event) (it : ModSecurityIntervention) :
  __call__ request s = (result, s') ->
  calls s' = calls s ++ pre ++ Tx_intervention true it :: post ->
  disruptive it = true ->
  post = [] /\
  (forall redirect_to,
      url it = Some redirect_to ->
      HttpResponseRedirect_raises redirect_to = None ->
      result = Return (HttpResponseRedirect redirect_to)) /\
  (forall redirect_to e,
      url it = Some redirect_to ->
      HttpResponseRedirect_raises redirect_to = Some e ->
      result = Raise e) /\
  (url it = None -> 100 <= status it <= 599 ->
   result = Return (HttpResponse (status it))) /\
  (url it = None -> ~ 100 <= status it <= 599 -> result = Raise invalid_status) /\
  ((exists p, last_completed (marks pre) = Some p /\ request_side p = true) ->
   forall q, ~ In (Get_response q) (pre ++ Tx_intervention true it :: post)).
Proof.
  intros E C D.
  destruct (processConnection_args request) as [conn|e] eqn:A.
  - destruct (call_runs s A) as (v & new & s1 & E1 & F & R).
    rewrite E1 in E. inversion E; subst result s1. clear E.
    destruct F as (C1 & _). rewrite C1 in C. apply app_inv_head in C.
    destruct pre as [|x pre']; simpl in C; inversion C as [[X N]]; subst x.
    pose proof (unchecked_stages request conn (get_response s request)) as U.
    destruct (ran_halt_last R U pre' post it N D) as [-> ->].
    subst new. split; [reflexivity|].
    destruct (@translate_cases it (translate it) eq_refl) as (T1 & T2 & T3 & T4).
    split; [exact T1|]. split; [exact T2|]. split; [exact T3|]. split; [exact T4|].
    intros (p & L & S) q I.
    destruct (ran_projection mark (fun _ _ => eq_refl) R U) as [M J].
    change (flat_map mark) with marks in M.
    rewrite marks_upto, marks_snoc_check in M by exact J.
    change (marks (Transaction_init :: pre')) with (marks pre') in L.
    rewrite M in L. apply (request_side_reach _ L) in S.
    destruct (ran_projection (fun e => if is_get_response e then [e] else [])
                             (fun _ _ => eq_refl) R U) as [G _].
    change (flat_map (fun e => if is_get_response e then [e] else []))
      with handler_calls in G.
    rewrite handler_calls_upto, S in G by exact J.
    destruct I as [I|I]; [discriminate|].
    apply In_handler_calls in I. rewrite G in I. exact I.
  - rewrite (call_raises s A) in E. inversion E; subst. simpl in C.
    apply app_inv_head in C.
    destruct pre as [|x [|y pre']]; discriminate.
Qed.

Lemma check_not_halting (pre : list Event) (it : ModSecurityIntervention) :
  disruptive it = true ->
  ~ Forall (fun e => halts e = false) (pre ++ [Tx_intervention true it]).
Proof.
  intros D F. apply Forall_app in F. destruct F as [_ F].
  inversion F as [|? ? X _]; subst. simpl in X. congruence.
Qed.

(** When each of the six intervention checks of a request is made and none
    yields a disruptive verdict, the call returns the response object the
    wrapped handler returned, as [getvalue] left it: the very same response
    when its content is held as bytes, and the response with nothing left to
    stream when it is a streaming one. *)
Theorem no_intervention_returns_original
        (request : HttpRequest) (s s' : Self) (result : Result Response)
        (new : list Event) :
  __call__ request s = (result, s') ->
  calls s' = calls s ++ new ->
  checks_made new = 6%nat ->
  Forall (fun e => halts e = false) new ->
  result = Return (Original (snd (getvalue (get_response s request)))) /\
  (forall data,
      content (get_response s request) = Bytes data ->
      result = Return (Original (get_response s request))) /\
  (forall chunks,
      content (get_response s request) = Streaming chunks ->
      result =
      Return (Original {| items := items (get_response s request);
                          status_code := status_code (get_response s request);
                          content := Streaming [] |})).
Proof.
  intros E C N Q.
  assert (R0 : result = Return (Original (snd (getvalue (get_response s request))))).
  { destruct (processConnection_args request) as [conn|e] eqn:A.
    - destruct (call_runs s A) as (v & new' & s1 & E1 & F & R).
      rewrite E1 in E. inversion E; subst result s1. clear E.
      destruct F as (C1 & _). rewrite C1 in C. apply app_inv_head in C. subst new.
      pose proof (unchecked_stages request conn (get_response s request)) as U.
      destruct v as [x|].
      + destruct (ran_some R U) as (pre & it & -> & D & _).
        inversion Q as [|? ? _ Q']; subst.
        now destruct (check_not_halting pre it D Q').
      + destruct (ran_none R U) as [N' _]. rewrite stages_length in N'.
        change (checks_made (Transaction_init :: new')) with (checks_made new') in N.
        unfold final, passed. destruct (body request); [reflexivity|].
        rewrite N in N'. discriminate.
    - rewrite (call_raises s A) in E. inversion E; subst. simpl in C.
      apply app_inv_head in C. subst new. discriminate. }
  split; [exact R0|]. unfold getvalue in R0.
  split; [intros data B | intros chunks B]; rewrite B in R0; exact R0.
Qed.



(** *** The translation of a verdict *)

(** When the query reports no intervention nothing is translated and nothing
    is logged by the middleware itself. *)
Lemma process_intervention_no_verdict
      (ses : Session) (it : ModSecurityIntervention) (t : Transaction)
      (msgs : list string) :
  intervention ModSecurityIntervention_new (transaction ses) = (false, it, t, msgs) ->
  exists ses',
    process_intervention ses = (Return None, ses') /\
    logger (self ses') = logger (self ses) ++ map (fun msg => (INFO, msg)) msgs.
Proof.
  intros E. unfold process_intervention, bind, tx_intervention. rewrite E.
  simpl. eexists. split; reflexivity.
Qed.

(** What the method does with a verdict the query returns. *)
Lemma process_intervention_verdict
      (ses : Session) (it : ModSecurityIntervention) (t : Transaction)
      (msgs : list string) :
  intervention ModSecurityIntervention_new (transaction ses) = (true, it, t, msgs) ->
  exists ses',
    process_intervention ses =
      (if disruptive it then answered (translate it) else Return None, ses') /\
    logger (self ses') =
      logger (self ses) ++ map (fun msg => (INFO, msg)) msgs
        ++ match log it with Some text => [(INFO, text)] | None => [] end.
Proof.
  intros E. unfold process_intervention, bind, tx_intervention, eval, translate.
  rewrite E. simpl.
  destruct (log it) as [text|]; destruct (disruptive it); simpl;
    try (destruct (match url it with
                   | Some redirect_to => new_HttpResponseRedirect redirect_to
                   | None => new_HttpResponse (status it)
                   end) as [response|e]);
    simpl; eexists; (split; [reflexivity|]); simpl;
    rewrite <- ?app_assoc, ?app_nil_r; reflexivity.
Qed.

(** C2: for a verdict [it] the intervention query returns, the translation
    gives no response when the verdict is not disruptive; when it is
    disruptive and has a URL, a redirect to that URL (whatever its status),
    unless Django refuses the URL, and then the method raises what the
    constructor raised; when it is disruptive and has no URL, an empty
    response with its status if that is in 100..599, and the constructor's
    [ValueError] otherwise; and a log text the verdict carries is emitted at
    level INFO, after what the engine itself handed to the log callback,
    whether the verdict is disruptive or not. *)
Theorem process_intervention_translates_verdict
        (ses : Session) (it : ModSecurityIntervention) (t : Transaction)
        (msgs : list string) :
  intervention ModSecurityIntervention_new (transaction ses) = (true, it, t, msgs) ->
  exists res ses',
    process_intervention ses = (res, ses') /\
    (disruptive it = false -> res = Return None) /\
    (disruptive it = true ->
     forall redirect_to,
       url it = Some redirect_to ->
       HttpResponseRedirect_raises redirect_to = None ->
       res = Return (Some (HttpResponseRedirect redirect_to))) /\
    (disruptive it = true ->
     forall redirect_to e,
       url it = Some redirect_to ->
       HttpResponseRedirect_raises redirect_to = Some e ->
       res = Raise e) /\
    (disruptive it = true -> url it = None -> 100 <= status it <= 599 ->
     res = Return (Some (HttpResponse (status it)))) /\
    (disruptive it = true -> url it = None -> ~ 100 <= status it <= 599 ->
     res = Raise invalid_status) /\
    (forall text,
        log it = Some text ->
        logger (self ses') =
        logger (self ses) ++ map (fun msg => (INFO, msg)) msgs ++ [(INFO, text)]) /\
    (log it = None ->
     logger (self ses') = logger (self ses) ++ map (fun msg => (INFO, msg)) msgs).
Proof.
  intros E. destruct (process_intervention_verdict ses E) as (ses' & P & L).
  destruct (@translate_cases it (translate it) eq_refl) as (T1 & T2 & T3 & T4).
  exists (if disruptive it then answered (translate it) else Return None), ses'.
  split; [exact P|].
  split; [intros ->; reflexivity|].
  split; [intros -> u U1 U2; now rewrite (T1 u U1 U2)|].
  split; [intros -> u e U1 U2; now rewrite (T2 u e U1 U2)|].
  split; [intros -> U S; now rewrite (T3 U S)|].
  split; [intros -> U S; now rewrite (T4 U S)|].
  split.
  - intros text Lg. rewrite Lg in L. exact L.
  - intros Lg. rewrite Lg, app_nil_r in L. exact L.
Qed.

End Requests.

(** ** Rule loading *)

Section RuleStore.

Context {MS : ModSecurity} {H : Host}.

(** C5: [load_rule_files] attempts one load for every path the patterns
    expand to, in order; a path whose load returns a negative count gets one
    warning, made of the path and of the parser error, adds nothing to the
    total and does not stop the loop; and the call returns the sum of the
    counts of the loads that succeeded, which is also what the running total
    grows by. *)
Theorem load_rule_files_tolerates_failures (rule_files : list string) (s : Self) :
  let outcomes := fst (load_outcomes (expanded rule_files) (rules s)) in
  let added := sum (map outcome_count (filter succeeded outcomes)) in
  exists s',
    load_rule_files rule_files s = (Return added, s') /\
    map outcome_path outcomes = expanded rule_files /\
    calls s' = calls s ++ flat_map file_events outcomes /\
    filter is_loadFromUri (flat_map file_events outcomes) =
      map (fun o => Rules_loadFromUri (outcome_path o) (outcome_count o)) outcomes /\
    logger s' = logger s ++ map file_warning (filter failed outcomes) /\
    rules_count s' = rules_count s + added /\
    0 <= added.
Proof.
  intros outcomes added.
  destruct (load_rule_files_run rule_files s) as (s' & E & F).
  fold outcomes in E, F. fold added in E.
  destruct F as (_ & C & L & T & _).
  exists s'. split; [exact E|].
  split; [apply load_outcomes_paths|].
  split; [exact T|].
  split; [apply loads_of_file_events|].
  split; [exact L|].
  split; [exact C|].
  apply sum_succeeded_nonneg.
Qed.

Lemma nonempty_length (text : string) :
  text <> EmptyString -> (Z.of_nat (String.length text) <=? 0) = false.
Proof.
  destruct text as [|c text]; [congruence|]. intros _. reflexivity.
Qed.

(** What [load_rules] does with a text that is not empty: one load, whose
    count it returns as it is. *)
Lemma load_rules_run (text : string) (s : Self) :
  text <> EmptyString ->
  exists s',
    load_rules (Some text) s = (Return (fst (load text (rules s))), s') /\
    rules s' = snd (load text (rules s)) /\
    calls s' =
      calls s ++ Rules_load text (fst (load text (rules s)))
        :: (if fst (load text (rules s)) <? 0
            then [Rules_getParserError (getParserError (snd (load text (rules s))))]
            else []) /\
    _rules_count s' =
      (if fst (load text (rules s)) <? 0 then _rules_count s
       else _rules_count s + fst (load text (rules s))) /\
    logger s' =
      logger s ++
      (if fst (load text (rules s)) <? 0
       then [(WARNING,
              ("[ModSecurity] Error trying to load rules: "
               ++ getParserError (snd (load text (rules s))))%string)]
       else []).
Proof.
  intros N. unfold load_rules. rewrite (nonempty_length N).
  unfold bind, rules_load.
  destruct (load text (rules s)) as [n r]. simpl.
  destruct (n <? 0); simpl; eexists; (split; [reflexivity|]); simpl;
    rewrite ?app_nil_r, <- ?app_assoc; repeat split.
Qed.

(** C6: [load_rules] returns 0 and changes nothing for [None] and for the
    empty text; for any other text it makes exactly one [load] call, with the
    whole text; when the engine's count is not negative the running total
    grows by it and it is the value returned, with nothing logged; when it is
    negative one warning with the parser error is logged and the running
    total stays as it was. *)
Theorem load_rules_loads_text_once (s : Self) :
  load_rules None s = (Return 0, s) /\
  load_rules (Some EmptyString) s = (Return 0, s) /\
  forall text,
    text <> EmptyString ->
    exists n r s',
      load text (rules s) = (n, r) /\
      load_rules (Some text) s = (Return n, s') /\
      filter is_load (skipn (List.length (calls s)) (calls s')) = [Rules_load text n] /\
      (0 <= n ->
       rules_count s' = rules_count s + n /\ logger s' = logger s) /\
      (n < 0 ->
       rules_count s' = rules_count s /\
       logger s' =
         logger s ++
         [(WARNING,
           ("[ModSecurity] Error trying to load rules: " ++ getParserError r)%string)]).
Proof.
  split; [reflexivity|]. split; [reflexivity|].
  intros text N.
  destruct (load_rules_run s N) as (s' & E & _ & C & T & L).
  destruct (load text (rules s)) as [n r] eqn:Ld. simpl in *.
  exists n, r, s'. split; [reflexivity|]. split; [exact E|].
  split; [|split].
  - rewrite C, skipn_app, skipn_all, Nat.sub_diag. simpl.
    destruct (n <? 0); reflexivity.
  - intros P. apply Z.ltb_ge in P. rewrite P in T, L.
    unfold rules_count. rewrite T, L, app_nil_r. tauto.
  - intros P. apply Z.ltb_lt in P. rewrite P in T, L.
    unfold rules_count. rewrite T, L. tauto.
Qed.


(** [load_rules] never raises, and what it returns for a text that is not
    empty is the engine's count. *)
Lemma load_rules_returns_engine_count (text : string) (s : Self) :
  text <> EmptyString ->
  fst (load_rules (Some text) s) = Return (fst (load text (rules s))).
Proof.
  intros N. destruct (load_rules_run s N) as (s' & E & _). now rewrite E.
Qed.

End RuleStore.

(** C7: on a text the engine rejects with count -1, [load_rules] returns -1,
    not a number of rules added: the running total is unchanged and a
    warning is logged, but the value returned is negative. *)
Theorem load_rules_returns_negative_count :
  fst (@load_rules Demo.engine (Some "garbage"%string) Demo.fresh) = Return (-1) /\
  rules_count (snd (@load_rules Demo.engine (Some "garbage"%string) Demo.fresh)) =
    rules_count Demo.fresh /\
  logger (snd (@load_rules Demo.engine (Some "garbage"%string) Demo.fresh)) =
    [(WARNING, "[ModSecurity] Error trying to load rules: Invalid input"%string)].
Proof. repeat split. Qed.

(** ** The running total *)

Section RunningTotal.

Context {MS : ModSecurity} {H : Host}.

Lemma loaded_nonneg (e : Event) : 0 <= loaded e.
Proof.
  destruct e; simpl; try lia; destruct (returned <? 0) eqn:N; try lia;
    apply Z.ltb_ge in N; lia.
Qed.

Lemma sum_loaded_nonneg (l : list Event) : 0 <= sum (map loaded l).
Proof.
  induction l as [|e l IH]; simpl; [lia|]. pose proof (loaded_nonneg e). lia.
Qed.

Lemma sum_loaded_file_events (outs : list (string * Z * string)) :
  sum (map loaded (flat_map file_events outs)) =
  sum (map outcome_count (filter succeeded outs)).
Proof.
  induction outs as [|o outs IH]; simpl; [reflexivity|].
  rewrite map_app, sum_app, IH.
  unfold file_events, succeeded at 2, failed.
  destruct (outcome_count o <? 0) eqn:N; simpl; lia.
Qed.

Lemma run_keeps_rules_count {A : Type} (c : M Session A) (t : Transaction)
      (s : Self) (Q : Result A -> list Event -> Session -> Prop) :
  run c {| self := s; transaction := t |} Q ->
  _rules_count (snd (with_transaction c t s)) = _rules_count s.
Proof.
  intros (a & new & ses' & E & F & _). unfold with_transaction. rewrite E.
  simpl. apply F.
Qed.

Lemma process_request_keeps_rules_count (request : HttpRequest) (t : Transaction)
      (s : Self) :
  _rules_count (snd (with_transaction (process_request request) t s)) =
  _rules_count s.
Proof.
  destruct (processConnection_args request) as [conn|e] eqn:A.
  - eapply run_keeps_rules_count. apply run_process_request, A.
  - unfold with_transaction, process_request, bind, eval. now rewrite A.
Qed.

Lemma call_keeps_rules_count (request : HttpRequest) (s : Self) :
  _rules_count (snd (__call__ request s)) = _rules_count s.
Proof.
  destruct (processConnection_args request) as [conn|e] eqn:A.
  - destruct (call_runs s A) as (v & new & s1 & E & F & _). rewrite E. apply F.
  - now rewrite (call_raises s A).
Qed.

Lemma exec_keeps_rules_count (op : Op) (s : Self) :
  is_load_op op = false -> rules_count (exec op s) = rules_count s.
Proof.
  unfold rules_count. destruct op; simpl; try discriminate; intros _.
  - apply call_keeps_rules_count.
  - apply process_request_keeps_rules_count.
  - eapply run_keeps_rules_count. apply run_process_response.
  - eapply run_keeps_rules_count.
    apply run_process_intervention with (Q := fun _ _ _ => True). trivial.
  - reflexivity.
  - reflexivity.
Qed.

Lemma load_rule_files_adds_loaded (rule_files : list string) (s : Self) :
  exists new,
    calls (exec (Op_load_rule_files rule_files) s) = calls s ++ new /\
    rules_count (exec (Op_load_rule_files rule_files) s) =
      rules_count s + sum (map loaded new).
Proof.
  destruct (load_rule_files_run rule_files s) as (s' & E & F).
  destruct F as (_ & C & _ & T & _).
  unfold exec. rewrite E. simpl snd. eexists. split; [exact T|].
  unfold rules_count. now rewrite C, sum_loaded_file_events.
Qed.

Lemma load_rules_adds_loaded (rules : option string) (s : Self) :
  exists new,
    calls (exec (Op_load_rules rules) s) = calls s ++ new /\
    rules_count (exec (Op_load_rules rules) s) =
      rules_count s + sum (map loaded new).
Proof.
  assert (Z0 : exists new, calls s = calls s ++ new /\
                           rules_count s = rules_count s + sum (map loaded new)).
  { exists []. rewrite app_nil_r. simpl. split; [reflexivity | lia]. }
  destruct rules as [text|]; [|exact Z0].
  destruct text as [|c text]; [exact Z0|].
  destruct (@load_rules_run MS (String c text) s) as (s' & E & _ & C & T & _);
    [discriminate|].
  unfold exec. rewrite E. simpl snd. eexists. split; [exact C|].
  unfold rules_count. rewrite T. simpl.
  destruct (fst (load (String c text) (rules s)) <? 0); simpl; lia.
Qed.

Lemma exec_monotone (op : Op) (s : Self) : rules_count s <= rules_count (exec op s).
Proof.
  destruct (is_load_op op) eqn:L.
  - destruct op as [patterns|text| | | | | |]; try discriminate.
    + destruct (load_rule_files_adds_loaded patterns s) as (new & _ & ->).
      pose proof (sum_loaded_nonneg new). lia.
    + destruct (load_rules_adds_loaded text s) as (new & _ & ->).
      pose proof (sum_loaded_nonneg new). lia.
  - rewrite (exec_keeps_rules_count _ _ L). lia.
Qed.

Lemma lifetime_monotone (ops : list Op) (s : Self) :
  rules_count s <= rules_count (lifetime ops s).
Proof.
  unfold lifetime. revert s.
  induction ops as [|op ops IH]; intros s; simpl; [lia|].
  specialize (IH (exec op s)). pose proof (exec_monotone op s). lia.
Qed.

Lemma load_rules_returns (rules0 : option string) (s : Self) :
  exists n, load_rules rules0 s = (Return n, snd (load_rules rules0 s)).
Proof.
  destruct rules0 as [[|c text]|]; try (exists 0; reflexivity).
  destruct (@load_rules_run MS (String c text) s) as (s' & E & _);
    [discriminate|].
  rewrite E. eexists. reflexivity.
Qed.

(** Construction is the attributes followed by the loads. *)
Lemma init_as_lifetime (handler : HttpRequest -> HandlerResponse) :
  __init__ handler = (Return tt, lifetime init_ops (attributes handler)).
Proof.
  unfold __init__, init_ops. cbv zeta.
  change (rule_files (attributes handler)) with init_rule_files.
  change (rule_lines (attributes handler)) with init_rule_lines.
  generalize (attributes handler) as s0. intros s0.
  unfold lifetime. rewrite fold_left_app.
  assert (F : forall s,
             (match init_rule_files with
              | Some rule_files => bind (load_rule_files rule_files) (fun _ => ret tt)
              | None => ret tt
              end) s =
             (Return tt,
              fold_left (fun s op => exec op s)
                        (match init_rule_files with
                         | Some rule_files => [Op_load_rule_files rule_files]
                         | None => []
                         end) s)).
  { intros s. destruct init_rule_files as [patterns|]; [|reflexivity].
    destruct (load_rule_files_run patterns s) as (s' & E & _).
    rewrite (bind_Return _ E). simpl. now rewrite E. }
  rewrite (bind_Return _ (F s0)).
  destruct init_rule_lines as [text|]; [|reflexivity].
  destruct (load_rules_returns (Some text)
              (fold_left (fun s op => exec op s)
                 (match init_rule_files with
                  | Some rule_files => [Op_load_rule_files rule_files]
                  | None => []
                  end) s0)) as (n & E).
  rewrite (bind_Return _ E). reflexivity.
Qed.

(** C8: the running total starts at 0 and never decreases, neither during
    construction nor over any sequence of method calls on the object; a call
    that is not a load leaves it as it was (request processing, with or
    without a transaction of its own, the log callback, reading the
    property); and a load adds to it the counts of the loads that succeeded,
    a failed load counting for nothing. *)
Theorem rules_count_never_decreases (ops : list Op) (s : Self) :
  rules_count s <= rules_count (lifetime ops s) /\
  (forall handler,
      rules_count (attributes handler) = 0 /\
      0 <= rules_count (snd (__init__ handler))) /\
  (forall op, is_load_op op = false -> rules_count (exec op s) = rules_count s) /\
  (forall op,
      is_load_op op = true ->
      exists new,
        calls (exec op s) = calls s ++ new /\
        rules_count (exec op s) = rules_count s + sum (map loaded new)) /\
  (forall uri text n, n < 0 ->
      loaded (Rules_loadFromUri uri n) = 0 /\ loaded (Rules_load text n) = 0).
Proof.
  split; [|split; [|split; [|split]]].
  - apply lifetime_monotone.
  - intros handler. split; [reflexivity|].
    rewrite init_as_lifetime. simpl snd.
    apply (lifetime_monotone init_ops (attributes handler)).
  - intros op. apply exec_keeps_rules_count.
  - intros op L. destruct op; try discriminate.
    + apply load_rule_files_adds_loaded.
    + apply load_rules_adds_loaded.
  - intros uri text n N. apply Z.ltb_lt in N. simpl. now rewrite N.
Qed.

End RunningTotal.


(** ** Construction *)

Section Construction.

Context {MS : ModSecurity} {H : Host}.






End Construction.



(** ** The connection phase *)

(** What the connection phase submits: [REMOTE_ADDR], the port of
    [get_port()], [SERVER_NAME] and [SERVER_PORT], each from [META]. *)
Lemma connection_phase_submits
      {MS : ModSecurity} {H : Host} (request : HttpRequest)
      (conn : string * Z * string * Z) (s : Self) :
  processConnection_args request = Return conn ->
  exists rest,
    calls (snd (__call__ request s)) =
    calls s ++ Transaction_init
      :: Tx (processConnection (fst (fst (fst conn))) (snd (fst (fst conn)))
                               (snd (fst conn)) (snd conn))
      :: rest.
Proof.
  intros A. destruct (call_runs s A) as (v & new & s1 & E & F & R).
  rewrite E. simpl. destruct F as (C & _). rewrite C.
  unfold stages, request_stages, early_stages in R. simpl in R.
  inversion R; subst; simpl; eexists; reflexivity.
Qed.

(** Without [USE_X_FORWARDED_PORT] the port submitted as the client's is the
    server's: [get_port()] reads [META['SERVER_PORT']], and [REMOTE_PORT] is
    not read at all. *)
Lemma client_port_is_server_port
      {H : Host} (request : HttpRequest) (conn : string * Z * string * Z) :
  USE_X_FORWARDED_PORT settings = false ->
  processConnection_args request = Return conn ->
  snd (fst (fst conn)) = snd conn.
Proof.
  intros U. unfold processConnection_args, get_port. rewrite U. simpl.
  destruct (getitem (META request) "REMOTE_ADDR"); [|discriminate].
  destruct (getitem (META request) "SERVER_PORT") as [port|]; [|discriminate].
  destruct (to_int port); [|discriminate].
  destruct (getitem (META request) "SERVER_NAME"); [|discriminate].
  intros E. inversion E; subst. reflexivity.
Qed.

(** C9: for a client connected from port 54321 to a server on port 8000, the
    connection phase submits 8000 as the client's port. *)
Theorem connection_phase_submits_server_port_as_client_port :
  dict_get (META Demo.home) "REMOTE_PORT" = Some "54321"%string /\
  dict_get (META Demo.home) "SERVER_PORT" = Some "8000"%string /\
  firstn 2 (calls (snd (@__call__ Demo.engine Demo.host Demo.home Demo.fresh))) =
  [Transaction_init;
   Tx (processConnection "10.0.0.7" 8000 "example.org" 8000)].
Proof. repeat split. Qed.

(** ** The theorems on the test double *)

(** C4: a handler that answers with a streaming response whose iterator has
    two chunks to yield.  The six checks are made and none is disruptive,
    the engine is given the whole body, and the call returns the handler's
    response object with nothing left to stream: not the response the
    handler returned. *)
Theorem streaming_response_is_drained :
  get_response Demo.fresh_streaming Demo.home = Demo.stream /\
  content Demo.stream = Streaming ["<p>hel"; "lo</p>"]%string /\
  checks_made
    (calls (snd (@__call__ Demo.engine Demo.host Demo.home Demo.fresh_streaming)))
    = 6%nat /\
  Forall (fun e => halts e = false)
    (calls (snd (@__call__ Demo.engine Demo.host Demo.home Demo.fresh_streaming))) /\
  In (Tx (appendResponseBody "<p>hello</p>"))
     (calls (snd (@__call__ Demo.engine Demo.host Demo.home Demo.fresh_streaming))) /\
  fst (@__call__ Demo.engine Demo.host Demo.home Demo.fresh_streaming) =
    Return (Original {| items := [("Content-Type", "text/html")]%string;
                        status_code := 200;
                        content := Streaming [] |}) /\
  fst (@__call__ Demo.engine Demo.host Demo.home Demo.fresh_streaming) <>
    Return (Original Demo.stream).
Proof.
  split; [reflexivity|]. split; [reflexivity|]. split; [reflexivity|].
  split; [vm_compute; repeat constructor|].
  split; [vm_compute; tauto|].
  split; [reflexivity|].
  vm_compute. discriminate.
Qed.

(** A disruptive verdict Django builds no response for: the status 0 of a
    verdict without URL, and a URL with the scheme [javascript].  The check
    is the last call made, and the call raises instead of returning a
    response. *)
Lemma disruptive_verdict_without_response :
  disruptive Demo.status_zero = true /\
  calls (snd (@__call__ (Demo.engine_answering Demo.status_zero) Demo.host
                Demo.admin (Demo.fresh_answering Demo.status_zero))) =
    [Transaction_init;
     Tx (processConnection "10.0.0.7" 8000 "example.org" 8000);
     Tx_intervention false
       (@ModSecurityIntervention_new (Demo.engine_answering Demo.status_zero));
     Tx (processURI "/admin" "GET" "1.1");
     Tx_intervention true Demo.status_zero] /\
  fst (@__call__ (Demo.engine_answering Demo.status_zero) Demo.host
         Demo.admin (Demo.fresh_answering Demo.status_zero)) =
    Raise (ValueError "HTTP status code must be an integer from 100 to 599.") /\
  disruptive Demo.script_redirect = true /\
  fst (@__call__ (Demo.engine_answering Demo.script_redirect) Demo.host
         Demo.admin (Demo.fresh_answering Demo.script_redirect)) =
    Raise (DisallowedRedirect "javascript:alert(1)").
Proof. repeat split. Qed.

(** The same two verdicts at the translation itself: the method raises. *)
Lemma unbuildable_verdict_raises :
  @intervention (Demo.engine_answering Demo.status_zero)
    (@ModSecurityIntervention_new (Demo.engine_answering Demo.status_zero)) true =
    (true, Demo.status_zero, true, []) /\
  fst (@process_intervention (Demo.engine_answering Demo.status_zero) Demo.host
         {| self := Demo.fresh_answering Demo.status_zero;
            transaction := (true : @Transaction (Demo.engine_answering Demo.status_zero)) |}) =
    Raise (ValueError "HTTP status code must be an integer from 100 to 599.") /\
  fst (@process_intervention (Demo.engine_answering Demo.script_redirect) Demo.host
         {| self := Demo.fresh_answering Demo.script_redirect;
            transaction :=
              (true : @Transaction (Demo.engine_answering Demo.script_redirect)) |}) =
    Raise (DisallowedRedirect "javascript:alert(1)").
Proof. repeat split. Qed.


Lemma disruptive_verdict_stops_pipeline_witness :
  @nil Event = [] /\
  (forall redirect_to,
      url Demo.denied = Some redirect_to ->
      @HttpResponseRedirect_raises Demo.host redirect_to = None ->
      fst (@__call__ Demo.engine Demo.host Demo.admin Demo.fresh) =
      Return (HttpResponseRedirect redirect_to)) /\
  (forall redirect_to e,
      url Demo.denied = Some redirect_to ->
      @HttpResponseRedirect_raises Demo.host redirect_to = Some e ->
      fst (@__call__ Demo.engine Demo.host Demo.admin Demo.fresh) = Raise e) /\
  (url Demo.denied = None -> 100 <= status Demo.denied <= 599 ->
   fst (@__call__ Demo.engine Demo.host Demo.admin Demo.fresh) =
   Return (HttpResponse (status Demo.denied))) /\
  (url Demo.denied = None -> ~ 100 <= status Demo.denied <= 599 ->
   fst (@__call__ Demo.engine Demo.host Demo.admin Demo.fresh) =
   Raise invalid_status) /\
  ((exists p,
       last_completed
         (marks [Transaction_init;
                 Tx (processConnection "10.0.0.7" 8000 "example.org" 8000);
                 Tx_intervention false (@ModSecurityIntervention_new Demo.engine);
                 Tx (processURI "/admin" "GET" "1.1")]) = Some p /\
       request_side p = true) ->
   forall q,
     ~ In (Get_response q)
          ([Transaction_init;
            Tx (processConnection "10.0.0.7" 8000 "example.org" 8000);
            Tx_intervention false (@ModSecurityIntervention_new Demo.engine);
            Tx (processURI "/admin" "GET" "1.1")]
             ++ Tx_intervention true Demo.denied :: [])).
Proof.
  apply (@disruptive_verdict_stops_pipeline
           Demo.engine Demo.host Demo.admin Demo.fresh
           (snd (@__call__ Demo.engine Demo.host Demo.admin Demo.fresh))
           (fst (@__call__ Demo.engine Demo.host Demo.admin Demo.fresh))
           [Transaction_init;
            Tx (processConnection "10.0.0.7" 8000 "example.org" 8000);
            Tx_intervention false (@ModSecurityIntervention_new Demo.engine);
            Tx (processURI "/admin" "GET" "1.1")]
           [] Demo.denied); reflexivity.
Defined.

Lemma process_intervention_translates_verdict_witness :
  exists res ses',
    @process_intervention Demo.engine Demo.host
      {| self := Demo.fresh; transaction := (true : @Transaction Demo.engine) |}
    = (res, ses') /\
    (disruptive Demo.denied = false -> res = Return None) /\
    (disruptive Demo.denied = true ->
     forall redirect_to,
       url Demo.denied = Some redirect_to ->
       @HttpResponseRedirect_raises Demo.host redirect_to = None ->
       res = Return (Some (HttpResponseRedirect redirect_to))) /\
    (disruptive Demo.denied = true ->
     forall redirect_to e,
       url Demo.denied = Some redirect_to ->
       @HttpResponseRedirect_raises Demo.host redirect_to = Some e ->
       res = Raise e) /\
    (disruptive Demo.denied = true -> url Demo.denied = None ->
     100 <= status Demo.denied <= 599 ->
     res = Return (Some (HttpResponse (status Demo.denied)))) /\
    (disruptive Demo.denied = true -> url Demo.denied = None ->
     ~ 100 <= status Demo.denied <= 599 ->
     res = Raise invalid_status) /\
    (forall text,
        log Demo.denied = Some text ->
        logger (self ses') =
        logger Demo.fresh ++ map (fun msg => (INFO, msg)) [] ++ [(INFO, text)]) /\
    (log Demo.denied = None ->
     logger (self ses') = logger Demo.fresh ++ map (fun msg => (INFO, msg)) []).
Proof.
  apply (@process_intervention_translates_verdict
           Demo.engine Demo.host
           {| self := Demo.fresh; transaction := (true : @Transaction Demo.engine) |}
           Demo.denied true []).
  reflexivity.
Defined.


Lemma no_intervention_returns_original_witness :
  fst (@__call__ Demo.engine Demo.host Demo.home Demo.fresh) =
    Return (Original (snd (getvalue (get_response Demo.fresh Demo.home)))) /\
  (forall data,
      content (get_response Demo.fresh Demo.home) = Bytes data ->
      fst (@__call__ Demo.engine Demo.host Demo.home Demo.fresh) =
      Return (Original (get_response Demo.fresh Demo.home))) /\
  (forall chunks,
      content (get_response Demo.fresh Demo.home) = Streaming chunks ->
      fst (@__call__ Demo.engine Demo.host Demo.home Demo.fresh) =
      Return (Original {| items := items (get_response Demo.fresh Demo.home);
                          status_code := status_code (get_response Demo.fresh Demo.home);
                          content := Streaming [] |})).
Proof.
  apply (@no_intervention_returns_original
           Demo.engine Demo.host Demo.home Demo.fresh
           (snd (@__call__ Demo.engine Demo.host Demo.home Demo.fresh))
           (fst (@__call__ Demo.engine Demo.host Demo.home Demo.fresh))
           (calls (snd (@__call__ Demo.engine Demo.host Demo.home Demo.fresh)))).
  - vm_compute. reflexivity.
  - vm_compute. reflexivity.
  - vm_compute. reflexivity.
  - vm_compute. repeat constructor.
Defined.

Lemma process_intervention_no_verdict_witness :
  exists ses',
    @process_intervention Demo.engine Demo.host
      {| self := Demo.fresh; transaction := (false : @Transaction Demo.engine) |}
    = (Return None, ses') /\
    logger (self ses') = logger Demo.fresh ++ map (fun msg => (INFO, msg)) [].
Proof.
  apply (@process_intervention_no_verdict
           Demo.engine Demo.host
           {| self := Demo.fresh; transaction := (false : @Transaction Demo.engine) |}
           (@ModSecurityIntervention_new Demo.engine) false []).
  reflexivity.
Defined.

Lemma client_port_is_server_port_witness :
  snd (fst (fst ("10.0.0.7"%string, 8000, "example.org"%string, 8000))) =
  snd ("10.0.0.7"%string, 8000, "example.org"%string, 8000).
Proof.
  apply (@client_port_is_server_port Demo.host Demo.home
           ("10.0.0.7"%string, 8000, "example.org"%string, 8000));
    reflexivity.
Defined.

(** A request whose connection data does not evaluate: [__call__] raises
    with the transaction created and nothing submitted, the handler not
    invoked and the middleware otherwise as it was. *)
Theorem malformed_request_raises_before_inspection
        {MS : ModSecurity} {H : Host} (request : HttpRequest) (e : Exception)
        (s : Self) :
  processConnection_args request = Raise e ->
  fst (__call__ request s) = Raise e /\
  calls (snd (__call__ request s)) = calls s ++ [Transaction_init] /\
  rules_count (snd (__call__ request s)) = rules_count s /\
  logger (snd (__call__ request s)) = logger s.
Proof.
  intros A. rewrite (call_raises s A). repeat split.
Qed.

Lemma malformed_request_raises_before_inspection_witness :
  fst (@__call__ Demo.engine Demo.host
         {| META := []; path := "/"; method := "GET"; body := Return EmptyString |}
         Demo.fresh) = Raise (KeyError "REMOTE_ADDR") /\
  calls (snd (@__call__ Demo.engine Demo.host
                {| META := []; path := "/"; method := "GET";
                   body := Return EmptyString |}
                Demo.fresh)) = calls Demo.fresh ++ [Transaction_init] /\
  rules_count (snd (@__call__ Demo.engine Demo.host
                      {| META := []; path := "/"; method := "GET";
                         body := Return EmptyString |}
                      Demo.fresh)) = rules_count Demo.fresh /\
  logger (snd (@__call__ Demo.engine Demo.host
                 {| META := []; path := "/"; method := "GET";
                    body := Return EmptyString |}
                 Demo.fresh)) = logger Demo.fresh.
Proof.
  apply (@malformed_request_raises_before_inspection Demo.engine Demo.host
           {| META := []; path := "/"; method := "GET"; body := Return EmptyString |}
           (KeyError "REMOTE_ADDR") Demo.fresh).
  reflexivity.
Defined.

(** *** Concrete runs *)

Example load_rule_files_run_example :
  fst (@load_rule_files Demo.engine Demo.host ["rules/*.conf"%string] Demo.fresh)
    = Return 4 /\
  rules_count
    (snd (@load_rule_files Demo.engine Demo.host ["rules/*.conf"%string] Demo.fresh))
    = 4 /\
  logger
    (snd (@load_rule_files Demo.engine Demo.host ["rules/*.conf"%string] Demo.fresh))
    = [(WARNING,
        "[ModSecurity] Error trying to load rule file broken.conf. Rules error. File: broken.conf"%string)] /\
  calls
    (snd (@load_rule_files Demo.engine Demo.host ["rules/*.conf"%string] Demo.fresh))
    = [Rules_loadFromUri "rules/a.conf" 2; Rules_loadFromUri "broken.conf" (-1);
       Rules_getParserError "Rules error. File: broken.conf";
       Rules_loadFromUri "rules/b.conf" 2].
Proof. repeat split. Qed.

Example load_rules_run_example :
  fst (@load_rules Demo.engine (Some "SecRuleEngine On"%string) Demo.fresh) = Return 1 /\
  rules_count (snd (@load_rules Demo.engine (Some "SecRuleEngine On"%string) Demo.fresh))
    = 1 /\
  fst (@load_rules Demo.engine (Some EmptyString) Demo.fresh) = Return 0 /\
  fst (@load_rules Demo.engine None Demo.fresh) = Return 0.
Proof. repeat split. Qed.

Example init_run_example :
  fst (@__init__ Demo.engine Demo.host Demo.view) = Return tt /\
  rule_files (snd (@__init__ Demo.engine Demo.host Demo.view))
    = Some ["rules/*.conf"%string] /\
  rule_lines (snd (@__init__ Demo.engine Demo.host Demo.view))
    = Some ("SecRuleEngine On" ++ newline ++ "SecRule ARGS x deny")%string /\
  rules_count (snd (@__init__ Demo.engine Demo.host Demo.view)) = 5 /\
  calls (snd (@__init__ Demo.engine Demo.host Demo.view))
    = [Rules_loadFromUri "rules/a.conf" 2; Rules_loadFromUri "broken.conf" (-1);
       Rules_getParserError "Rules error. File: broken.conf";
       Rules_loadFromUri "rules/b.conf" 2;
       Rules_load ("SecRuleEngine On" ++ newline ++ "SecRule ARGS x deny")%string 1].
Proof. repeat split. Qed.

Example call_passes_example :
  fst (@__call__ Demo.engine Demo.host Demo.home Demo.fresh)
    = Return (Original Demo.page) /\
  marks (calls (snd (@__call__ Demo.engine Demo.host Demo.home Demo.fresh)))
    = timeline /\
  checks_made (calls (snd (@__call__ Demo.engine Demo.host Demo.home Demo.fresh)))
    = 6%nat.
Proof. repeat split. Qed.

Example call_blocked_example :
  fst (@__call__ Demo.engine Demo.host Demo.admin Demo.fresh)
    = Return (HttpResponse 403) /\
  calls (snd (@__call__ Demo.engine Demo.host Demo.admin Demo.fresh))
    = [Transaction_init;
       Tx (processConnection "10.0.0.7" 8000 "example.org" 8000);
       Tx_intervention false (@ModSecurityIntervention_new Demo.engine);
       Tx (processURI "/admin" "GET" "1.1");
       Tx_intervention true Demo.denied] /\
  logger (snd (@__call__ Demo.engine Demo.host Demo.admin Demo.fresh))
    = [(INFO, "Access denied"%string)].
Proof. repeat split. Qed.

Example iter_headers_example :
  _iter_headers Demo.home = [("HOST", "example.org")]%string.
Proof. reflexivity. Qed.


Example call_redirected_example :
  fst (@__call__ (Demo.engine_answering Demo.moved) Demo.host Demo.admin
         (Demo.fresh_answering Demo.moved))
    = Return (HttpResponseRedirect "https://example.org/blocked").
Proof. reflexivity. Qed.

Example call_streaming_example :
  snd (getvalue Demo.stream) <> Demo.stream /\
  fst (getvalue Demo.stream) = "<p>hello</p>"%string /\
  getvalue Demo.page = ("<p>hello</p>"%string, Demo.page).
Proof. repeat split. discriminate. Qed.

(** * Further properties *)

(** ** The request headers *)

Lemma prefix_slice (p s : string) :
  String.prefix p s = true -> s = (p ++ slice_from (String.length p) s)%string.
Proof.
  revert s. induction p as [|a p IH]; intros s E; [reflexivity|].
  destruct s as [|b s]; simpl in E; [discriminate|].
  destruct (Ascii.ascii_dec a b) as [->|N]; [|discriminate].
  simpl. f_equal. now apply IH.
Qed.

Lemma prefix_append (p s : string) : String.prefix p (p ++ s)%string = true.
Proof.
  induction p as [|a p IH]; simpl; [destruct s; reflexivity|].
  destruct (Ascii.ascii_dec a a) as [_|N]; [exact IH | congruence].
Qed.

(** The headers forwarded to the engine are the entries of [META] whose key
    starts with [HTTP_], under the key without that prefix: [(k, v)] is
    forwarded exactly when [META] holds [v] under [HTTP_k], and putting the
    prefix back on what is forwarded gives the [HTTP_] entries of [META], in
    the order of [META]. *)
Theorem iter_headers_forwards_http_keys (request : HttpRequest) :
  (forall k v,
      In (k, v) (_iter_headers request) <->
      In (("HTTP_" ++ k)%string, v) (META request)) /\
  map (fun kv => (("HTTP_" ++ fst kv)%string, snd kv)) (_iter_headers request) =
  filter (fun kv => startswith (fst kv) "HTTP_") (META request).
Proof.
  unfold _iter_headers. split.
  - intros k v. rewrite in_flat_map. split.
    + intros ([key value] & I & F).
      destruct (startswith key "HTTP_") eqn:P; [|destruct F].
      destruct F as [F|[]]. apply pair_equal_spec in F. destruct F as [<- <-].
      apply prefix_slice in P. change (String.length "HTTP_") with 5%nat in P.
      now rewrite <- P.
    + intros I. exists (("HTTP_" ++ k)%string, v). split; [exact I|].
      unfold startswith. rewrite prefix_append.
      left. reflexivity.
  - induction (META request) as [|[key value] meta IH]; [reflexivity|].
    cbn [flat_map filter fst snd].
    destruct (startswith key "HTTP_") eqn:P; [|exact IH].
    cbn [app map fst snd]. rewrite IH. f_equal. f_equal.
    apply prefix_slice in P. change (String.length "HTTP_") with 5%nat in P.
    now rewrite <- P.
Qed.

(** ** What is submitted, and when the engine is asked *)

Lemma submissions_app (l1 l2 : list Event) :
  submissions (l1 ++ l2) = submissions l1 ++ submissions l2.
Proof. apply filter_app. Qed.

Lemma submissions_flat_map (l : list Event) :
  flat_map (fun e => if is_check e then [] else [e]) l = submissions l.
Proof.
  induction l as [|e l IH]; simpl; [reflexivity|].
  rewrite IH. destruct (is_check e); reflexivity.
Qed.

Lemma submissions_unchecked (st : list (list Event)) :
  unchecked st -> submissions (List.concat st) = List.concat st.
Proof.
  induction 1 as [|stage st Us _ IH]; simpl; [reflexivity|].
  rewrite submissions_app, IH. f_equal.
  induction Us as [|e stage Pe _ IHs]; simpl; [reflexivity|].
  rewrite Pe. simpl. now rewrite IHs.
Qed.

Lemma unchecked_firstn (j : nat) (st : list (list Event)) :
  unchecked st -> unchecked (firstn j st).
Proof.
  intros U. revert j. induction U as [|stage st Us U IH]; intros j.
  - rewrite firstn_nil. constructor.
  - destruct j as [|j]; simpl; [constructor|].
    constructor; [exact Us | apply IH].
Qed.

Lemma stages_end_with_completion (request : HttpRequest)
      (conn : string * Z * string * Z) (response : HandlerResponse) :
  Forall ends_with_completion (stages request conn response).
Proof.
  assert (E : Forall ends_with_completion (early_stages request conn)).
  { unfold early_stages. repeat apply Forall_cons; try apply Forall_nil.
    - exists [], (processConnection (fst (fst (fst conn))) (snd (fst (fst conn)))
                                    (snd (fst conn)) (snd conn)), Connection.
      split; reflexivity.
    - exists [], (processURI (path request) (method request) "1.1"), URI.
      split; reflexivity.
    - eexists _, processRequestHeaders, RequestHeaders. split; reflexivity. }
  unfold stages, request_stages, response_stages.
  destruct (body request) as [data|e]; repeat (apply Forall_app; split);
    try exact E; repeat apply Forall_cons; try apply Forall_nil.
  - exists [Tx (appendRequestBody data)], processRequestBody, RequestBody.
    split; reflexivity.
  - exists (Get_response request
              :: map (fun kv => Tx (addResponseHeader (fst kv) (snd kv)))
                     (items response)),
      (processResponseHeaders (status_code response) "HTTP/1.1"), ResponseHeaders.
    split; reflexivity.
  - exists [Tx (appendResponseBody (fst (getvalue response)))], processResponseBody,
      ResponseBody.
    split; reflexivity.
Qed.

Lemma completed_upto (j : nat) :
  (j <= 6)%nat ->
  List.length (filter is_completed (firstn (reach j) timeline)) = j.
Proof.
  intros L. destruct j as [|[|[|[|[|[|[|j]]]]]]]; try reflexivity. lia.
Qed.

Section Submissions.

Context {MS : ModSecurity} {H : Host}.

Lemma ran_checks_positive (stage : list Event) (rest : list (list Event))
      (new : list Event) (r : option (Result Response)) :
  ran (stage :: rest) new r -> (1 <= checks_made new)%nat.
Proof.
  intros R. inversion R; subst; rewrite checks_made_app, checks_made_check; lia.
Qed.

(** In a run every check comes right after the call that completes a
    phase. *)
Lemma ran_check_follows (st : list (list Event)) (new : list Event)
      (r : option (Result Response)) :
  ran st new r -> unchecked st -> Forall ends_with_completion st ->
  forall pre post pending it,
    new = pre ++ Tx_intervention pending it :: post ->
    ends_with_completion pre.
Proof.
  induction 1 as [|stage rest b0 it0 new r Q R IH|stage rest it0 D0];
    intros U C pre post pending it E.
  - destruct pre; discriminate.
  - inversion U as [|? ? Us Ur]; subst. inversion C as [|? ? Cs Cr]; subst.
    destruct (@split_at Event is_check _ _ _ _ _ (Tx_intervention pending it)
                        Us eq_refl E)
      as [(-> & _ & _) | (pre' & -> & E')]; [exact Cs|].
    destruct (IH Ur Cr pre' post pending it E') as (init & c & p & -> & P).
    exists (stage ++ Tx_intervention b0 it0 :: init), c, p.
    rewrite <- app_assoc. split; [reflexivity | exact P].
  - inversion U as [|? ? Us Ur]; subst. inversion C as [|? ? Cs Cr]; subst.
    destruct (@split_at Event is_check _ _ _ _ _ (Tx_intervention pending it)
                        Us eq_refl E)
      as [(-> & _ & _) | (pre' & _ & E')]; [exact Cs|].
    destruct pre'; discriminate.
Qed.

Lemma translate_not_original (it : ModSecurityIntervention)
      (response : HandlerResponse) :
  translate it <> Return (Original response).
Proof.
  unfold translate, new_HttpResponseRedirect, new_HttpResponse.
  destruct (url it) as [redirect_to|].
  - destruct (HttpResponseRedirect_raises redirect_to); discriminate.
  - destruct ((100 <=? status it) && (status it <=? 599)); discriminate.
Qed.

Lemma translate_response (it : ModSecurityIntervention) (response : Response) :
  translate it = Return response -> response = response_of it.
Proof.
  unfold translate, response_of, new_HttpResponseRedirect, new_HttpResponse.
  destruct (url it) as [redirect_to|].
  - destruct (HttpResponseRedirect_raises redirect_to); intros E; now inversion E.
  - destruct ((100 <=? status it) && (status it <=? 599)); intros E; now inversion E.
Qed.

(** For a request whose connection data evaluates, what [__call__] submits to
    the engine, the handler's invocation included, is the calls of the first
    stages, as many as there are checks made, in order and each once: the
    connection data, the path and method with version 1.1, every forwarded
    header then the headers' completion, the whole body then its completion,
    the handler, every response header then the completion with the status
    code and HTTP/1.1, the whole response body then its completion.  This
    holds whether the call returns or raises, and a call that returns the
    handler's response has submitted all the stages. *)
Theorem submissions_follow_stages
        (request : HttpRequest) (conn : string * Z * string * Z) (s : Self) :
  processConnection_args request = Return conn ->
  exists outcome new s',
    __call__ request s = (outcome, s') /\
    calls s' = calls s ++ Transaction_init :: new /\
    (1 <= checks_made new <= 6)%nat /\
    submissions new =
      List.concat (firstn (checks_made new)
                          (stages request conn (get_response s request))) /\
    (forall response,
        outcome = Return (Original response) ->
        checks_made new = 6%nat /\
        submissions new = List.concat (stages request conn (get_response s request))).
Proof.
  intros A.
  destruct (call_runs s A) as (v & new & s1 & E1 & F & R).
  pose proof (unchecked_stages request conn (get_response s request)) as U.
  destruct (ran_projection (fun e => if is_check e then [] else [e])
                           (fun _ _ => eq_refl) R U) as [P J].
  rewrite !submissions_flat_map in P.
  rewrite (submissions_unchecked (unchecked_firstn _ U)) in P.
  assert (J1 : (1 <= checks_made new)%nat).
  { pose proof R as R'. unfold stages, request_stages, early_stages in R'.
    simpl in R'. exact (ran_checks_positive R'). }
  assert (J6 : (checks_made new <= 6)%nat).
  { rewrite stages_length in J. destruct (body request); lia. }
  exists (final v request (get_response s request)), new, s1.
  split; [exact E1|]. split; [apply F|].
  split; [split; [exact J1 | exact J6]|]. split; [exact P|].
  intros response O. destruct v as [x|].
  - destruct (ran_some R U) as (pre & it & _ & _ & -> & _). simpl in O.
    now destruct (@translate_not_original it response).
  - destruct (ran_none R U) as [N _]. unfold final, passed in O.
    pose proof (stages_length request conn (get_response s request)) as SL.
    destruct (body request); [|discriminate].
    split; [now rewrite N, SL|].
    rewrite P, N. now rewrite firstn_all.
Qed.

(** For such a request the engine is asked for an intervention once for
    every phase completed, and always right after the call that completes a
    phase: never before the connection is submitted, never between two
    headers, never twice in a row; and this whether the call returns or
    raises. *)
Theorem checks_follow_completions
        (request : HttpRequest) (conn : string * Z * string * Z) (s : Self) :
  processConnection_args request = Return conn ->
  exists outcome new s',
    __call__ request s = (outcome, s') /\
    calls s' = calls s ++ Transaction_init :: new /\
    checks_made new = List.length (filter is_completed (marks new)) /\
    forall pre post pending it,
      new = pre ++ Tx_intervention pending it :: post ->
      exists init c p, pre = init ++ [Tx c] /\ completes c = Some p.
Proof.
  intros A.
  destruct (call_runs s A) as (v & new & s1 & E1 & F & R).
  pose proof (unchecked_stages request conn (get_response s request)) as U.
  destruct (ran_projection mark (fun _ _ => eq_refl) R U) as [M J].
  change (flat_map mark) with marks in M. rewrite marks_upto in M by exact J.
  exists (final v request (get_response s request)), new, s1.
  split; [exact E1|]. split; [apply F|]. split.
  - rewrite M. symmetry. apply completed_upto.
    rewrite stages_length in J. destruct (body request); lia.
  - intros pre post pending it E.
    exact (ran_check_follows R U (stages_end_with_completion _ _ _)
                             pre post pending it E).
Qed.

(** Every call ends in one of four ways.  It raises because the connection
    data does not evaluate, with nothing submitted.  It raises because the
    body of the request cannot be read, after three checks of which none was
    disruptive and without the handler.  It returns the handler's response
    object as [getvalue] left it, after six checks of which none was
    disruptive and one invocation of the handler.  Or a disruptive verdict
    stopped it, whose check is the last call made: then it returns the
    response of that verdict when Django builds it, and raises what the
    constructor raised when it does not. *)
Theorem call_outcome (request : HttpRequest) (s : Self) :
  (exists e,
      processConnection_args request = Raise e /\
      fst (__call__ request s) = Raise e /\
      calls (snd (__call__ request s)) = calls s ++ [Transaction_init]) \/
  (exists e new,
      body request = Raise e /\
      fst (__call__ request s) = Raise e /\
      calls (snd (__call__ request s)) = calls s ++ Transaction_init :: new /\
      checks_made new = 3%nat /\
      Forall (fun e => halts e = false) new /\
      handler_calls new = []) \/
  (fst (__call__ request s) =
     Return (Original (snd (getvalue (get_response s request)))) /\
   exists new,
     calls (snd (__call__ request s)) = calls s ++ Transaction_init :: new /\
     checks_made new = 6%nat /\
     Forall (fun e => halts e = false) new /\
     handler_calls new = [Get_response request]) \/
  (exists pre it,
      calls (snd (__call__ request s)) =
        calls s ++ Transaction_init :: pre ++ [Tx_intervention true it] /\
      disruptive it = true /\
      Forall (fun e => halts e = false) pre /\
      fst (__call__ request s) = translate it /\
      (fst (__call__ request s) = Return (response_of it) \/
       exists e, fst (__call__ request s) = Raise e)).
Proof.
  destruct (processConnection_args request) as [conn|e] eqn:A.
  - right.
    destruct (call_runs s A) as (v & new & s1 & E1 & F & R).
    pose proof (unchecked_stages request conn (get_response s request)) as U.
    rewrite E1. simpl fst. simpl snd. destruct F as (C & _).
    destruct (ran_projection (fun e => if is_get_response e then [e] else [])
                             (fun _ _ => eq_refl) R U) as [G J].
    change (flat_map (fun e => if is_get_response e then [e] else []))
      with handler_calls in G.
    rewrite handler_calls_upto in G by exact J.
    destruct v as [x|].
    + right. right. destruct (ran_some R U) as (pre & it & -> & D & -> & Q & _).
      exists pre, it. split; [exact C|]. split; [exact D|]. split; [exact Q|].
      split; [reflexivity|]. simpl.
      destruct (translate it) as [response|e] eqn:T.
      * left. now rewrite (@translate_response it response T).
      * right. now exists e.
    + destruct (ran_none R U) as [N Q]. rewrite stages_length in N.
      unfold final, passed. destruct (body request) as [data|e].
      * right. left. split; [reflexivity|]. exists new.
        split; [exact C|]. split; [exact N|]. split; [exact Q|].
        rewrite N in G. exact G.
      * left. exists e, new. split; [reflexivity|]. split; [reflexivity|].
        split; [exact C|]. split; [exact N|]. split; [exact Q|].
        rewrite N in G. exact G.
  - left. exists e. split; [reflexivity|]. now rewrite (call_raises s A).
Qed.

(** A request whose body cannot be read never reaches the handler: at most
    three checks are made, the body phase is not completed, and unless a
    disruptive verdict came first the call raises what reading the body
    raised, after the three phases that do not need the body. *)
Theorem unreadable_body_stops_before_handler
        (request : HttpRequest) (conn : string * Z * string * Z) (e : Exception)
        (s : Self) :
  processConnection_args request = Return conn ->
  body request = Raise e ->
  exists new,
    calls (snd (__call__ request s)) = calls s ++ Transaction_init :: new /\
    (checks_made new <= 3)%nat /\
    marks new = firstn (checks_made new) timeline /\
    handler_calls new = [] /\
    (Forall (fun e => halts e = false) new ->
     fst (__call__ request s) = Raise e /\ checks_made new = 3%nat).
Proof.
  intros A B.
  destruct (call_runs s A) as (v & new & s1 & E1 & F & R).
  pose proof (unchecked_stages request conn (get_response s request)) as U.
  destruct (ran_projection mark (fun _ _ => eq_refl) R U) as [M J].
  change (flat_map mark) with marks in M. rewrite marks_upto in M by exact J.
  destruct (ran_projection (fun e => if is_get_response e then [e] else [])
                           (fun _ _ => eq_refl) R U) as [G _].
  change (flat_map (fun e => if is_get_response e then [e] else []))
    with handler_calls in G.
  rewrite handler_calls_upto in G by exact J.
  pose proof (stages_length request conn (get_response s request)) as SL.
  rewrite B in SL. rewrite SL in J.
  rewrite E1. simpl fst. simpl snd. exists new.
  split; [apply F|]. split; [exact J|].
  split; [|split].
  - rewrite M. destruct (checks_made new) as [|[|[|[|k]]]]; try reflexivity. lia.
  - rewrite G. destruct (checks_made new) as [|[|[|[|k]]]]; try reflexivity. lia.
  - intros Q. destruct v as [x|].
    + destruct (ran_some R U) as (pre & it & -> & D & _).
      now destruct (@check_not_halting pre it D Q).
    + destruct (ran_none R U) as [N _]. rewrite SL in N.
      unfold final, passed. rewrite B. split; [reflexivity | exact N].
Qed.

End Submissions.

(** ** What request processing leaves alone *)

Section Quiet.

Context {MS : ModSecurity} {H : Host}.

Lemma quiet_step_refl (s : Self) : quiet_step s s.
Proof.
  unfold quiet_step. repeat split; try reflexivity;
    exists []; rewrite app_nil_r; split; constructor.
Qed.

Lemma quiet_step_trans (s1 s2 s3 : Self) :
  quiet_step s1 s2 -> quiet_step s2 s3 -> quiet_step s1 s3.
Proof.
  unfold quiet_step.
  intros (R1 & F1 & L1 & N1 & G1 & (x1 & X1 & I1) & (c1 & C1 & Q1))
         (R2 & F2 & L2 & N2 & G2 & (x2 & X2 & I2) & (c2 & C2 & Q2)).
  rewrite R2, F2, L2, N2, G2, X2, X1, C2, C1, <- !app_assoc.
  repeat split; try assumption.
  - exists (x1 ++ x2). split; [reflexivity|]. apply Forall_app. now split.
  - exists (c1 ++ c2). split; [reflexivity|]. apply Forall_app. now split.
Qed.

Lemma quiet_ret {A : Type} (a : A) : quiet (@ret Session A a).
Proof. intros ses. apply quiet_step_refl. Qed.

Lemma quiet_eval {A : Type} (r : Result A) : quiet (@eval Session A r).
Proof. intros ses. apply quiet_step_refl. Qed.

Lemma quiet_bind {A B : Type} (c : M Session A) (k : A -> M Session B) :
  quiet c -> (forall a, quiet (k a)) -> quiet (bind c k).
Proof.
  intros Qc Qk ses. unfold bind. specialize (Qc ses).
  destruct (c ses) as [[a|e] ses1]; simpl in *; [|exact Qc].
  eapply quiet_step_trans; [exact Qc | apply Qk].
Qed.

Lemma quiet_for_each {A : Type} (l : list A) (body : A -> M Session unit) :
  (forall x, quiet (body x)) -> quiet (for_each l body).
Proof.
  intros Qb. induction l as [|x l IH]; simpl; [apply quiet_ret|].
  apply quiet_bind; [apply Qb | intros _; exact IH].
Qed.

Lemma quiet_logged (msgs : list string) (e : Event) (s : Self) :
  is_rules_call e = false ->
  quiet_step s (modsecurity_log_callback msgs (emit e s)).
Proof.
  intros Ne. unfold quiet_step; simpl. repeat split.
  - eexists. split; [reflexivity|]. apply Forall_map, Forall_forall. reflexivity.
  - exists [e]. split; [reflexivity|]. now constructor.
Qed.

Lemma quiet_tx (c : TxCall) : quiet (tx c).
Proof.
  intros ses. unfold tx. destruct (submit c (transaction ses)) as [t msgs].
  simpl. now apply quiet_logged.
Qed.

Lemma quiet_tx_intervention (it : ModSecurityIntervention) :
  quiet (tx_intervention it).
Proof.
  intros ses. unfold tx_intervention.
  destruct (intervention it (transaction ses)) as [[[pending it'] t] msgs].
  simpl. now apply quiet_logged.
Qed.

Lemma quiet_logger_info (msg : string) : quiet (logger_info msg).
Proof.
  intros ses. unfold quiet_step; simpl. repeat split.
  - exists [(INFO, msg)]. split; [reflexivity|]. now constructor.
  - exists []. rewrite app_nil_r. split; constructor.
Qed.

Lemma quiet_call_get_response (request : HttpRequest) :
  quiet (call_get_response request).
Proof.
  intros ses. unfold quiet_step; simpl. repeat split.
  - exists []. rewrite app_nil_r. split; constructor.
  - exists [Get_response request]. split; [reflexivity|]. now constructor.
Qed.

Ltac quiet_steps :=
  repeat first
    [ apply quiet_ret | apply quiet_eval | apply quiet_tx
    | apply quiet_tx_intervention | apply quiet_logger_info
    | apply quiet_call_get_response
    | apply quiet_for_each; intros [? ?]
    | apply quiet_bind; [|intros ?]
    | match goal with
      | |- quiet (match ?x with _ => _ end) => destruct x
      | |- quiet (if ?b then _ else _) => destruct b
      end ].

Lemma quiet_process_intervention : quiet process_intervention.
Proof. unfold process_intervention. quiet_steps. Qed.

Lemma quiet_process_request (request : HttpRequest) :
  quiet (process_request request).
Proof.
  unfold process_request.
  repeat first [ apply quiet_process_intervention | progress quiet_steps ].
Qed.

Lemma quiet_process_response (request : HttpRequest)
      (original_response : HandlerResponse) :
  quiet (process_response request original_response).
Proof.
  unfold process_response.
  repeat first [ apply quiet_process_intervention | progress quiet_steps ].
Qed.

Lemma quiet_handle (request : HttpRequest) : quiet (handle request).
Proof.
  unfold handle.
  repeat first [ apply quiet_process_request | apply quiet_process_response
               | progress quiet_steps ].
Qed.

(** Whatever the request, the engine and the handler, and whether the call
    returns or raises, [__call__] leaves the rules object, the configuration
    attributes, the running total and the handler as they were; it only adds
    to the log, and only records of level INFO; and it makes no call on the
    rules object. *)
Theorem call_leaves_rules_alone (request : HttpRequest) (s : Self) :
  rules (snd (__call__ request s)) = rules s /\
  rule_files (snd (__call__ request s)) = rule_files s /\
  rule_lines (snd (__call__ request s)) = rule_lines s /\
  rules_count (snd (__call__ request s)) = rules_count s /\
  get_response (snd (__call__ request s)) = get_response s /\
  (exists extra,
      logger (snd (__call__ request s)) = logger s ++ extra /\
      Forall (fun r => fst r = INFO) extra) /\
  (exists new,
      calls (snd (__call__ request s)) = calls s ++ new /\
      Forall (fun e => is_rules_call e = false) new).
Proof.
  change (quiet_step s (snd (__call__ request s))).
  unfold __call__.
  pose proof (quiet_handle request
                {| self := emit Transaction_init s;
                   transaction := Transaction_new (rules s) |}) as Q.
  destruct (handle request
              {| self := emit Transaction_init s;
                 transaction := Transaction_new (rules s) |}) as [r ses'].
  simpl in *. eapply quiet_step_trans; [|exact Q].
  unfold quiet_step; simpl. repeat split.
  - exists []. rewrite app_nil_r. split; constructor.
  - exists [Transaction_init]. split; [reflexivity|]. now constructor.
Qed.

End Quiet.

(** ** More on rule loading *)

Section Loads.

Context {MS : ModSecurity} {H : Host}.

(** [load_rule_files] is its inner loop over the expanded paths, and returns
    what the running total grew by. *)
Lemma load_rule_files_as_loop (rule_files : list string) (s : Self) :
  load_rule_files rule_files s =
  (Return (_rules_count (snd (for_each (expanded rule_files) load_file s))
           - _rules_count s),
   snd (for_each (expanded rule_files) load_file s)).
Proof.
  destruct (for_each_load_file (expanded rule_files) s) as (s1 & E1 & _).
  rewrite E1. simpl snd.
  unfold load_rule_files.
  change (bind (gets rules_count)
            (fun before_count =>
               bind (for_each rule_files
                       (fun pattern => for_each (glob pattern) load_file))
                    (fun _ => bind (gets rules_count)
                                (fun after_count => ret (after_count - before_count)))) s
          = (Return (_rules_count s1 - _rules_count s), s1)).
  unfold bind at 1. unfold gets at 1.
  rewrite (bind_Return _ (eq_trans (for_each_glob rule_files s) E1)).
  reflexivity.
Qed.

Lemma load_rule_files_no_paths (rule_files : list string) (s : Self) :
  expanded rule_files = [] -> load_rule_files rule_files s = (Return 0, s).
Proof.
  intros E. rewrite load_rule_files_as_loop, E. simpl.
  now rewrite Z.sub_diag.
Qed.

(** Patterns that expand to no path at all are a silent no-op: the call
    returns 0, asks nothing of the engine and logs nothing, not even a
    warning. *)
Theorem load_rule_files_without_paths (rule_files : list string) (s : Self) :
  expanded rule_files = [] ->
  load_rule_files rule_files s = (Return 0, s).
Proof. apply load_rule_files_no_paths. Qed.

(** Loading two lists of patterns in one call is loading them in two calls
    one after the other: the same object at the end, and the sum of the two
    values returned. *)
Theorem load_rule_files_composes (a b : list string) (s : Self) :
  exists n1 n2 s1 s2,
    load_rule_files a s = (Return n1, s1) /\
    load_rule_files b s1 = (Return n2, s2) /\
    load_rule_files (a ++ b) s = (Return (n1 + n2), s2).
Proof.
  destruct (for_each_load_file (expanded a) s) as (s1 & E1 & _).
  destruct (for_each_load_file (expanded b) s1) as (s2 & E2 & _).
  exists (_rules_count s1 - _rules_count s), (_rules_count s2 - _rules_count s1),
    s1, s2.
  rewrite !load_rule_files_as_loop.
  unfold expanded. rewrite flat_map_app.
  fold (expanded a). fold (expanded b).
  rewrite (for_each_app _ E1), E1, E2. simpl snd.
  repeat split. f_equal. f_equal. lia.
Qed.

Lemma accounted_refl (s : Self) : accounted s s.
Proof.
  exists [], []. rewrite !app_nil_r. simpl.
  repeat split; try constructor. lia.
Qed.

Lemma accounted_trans (s1 s2 s3 : Self) :
  accounted s1 s2 -> accounted s2 s3 -> accounted s1 s3.
Proof.
  intros (n1 & x1 & C1 & L1 & T1 & R1 & W1 & N1)
         (n2 & x2 & C2 & L2 & T2 & R2 & W2 & N2).
  exists (n1 ++ n2), (x1 ++ x2).
  rewrite C2, C1, L2, L1, T2, T1, <- !app_assoc.
  rewrite map_app, sum_app, filter_app, !length_app, N1, N2.
  repeat split; try (apply Forall_app; now split). lia.
Qed.

Lemma file_events_accounted (outs : list (string * Z * string)) :
  Forall (fun e => is_rules_call e = true) (flat_map file_events outs) /\
  Forall (fun r => fst r = WARNING) (map file_warning (filter failed outs)) /\
  List.length (map file_warning (filter failed outs)) =
    List.length (filter failed_load (flat_map file_events outs)).
Proof.
  induction outs as [|o outs (R & W & N)]; simpl;
    [repeat split; constructor|].
  unfold failed at 1 2 3 4 5.
  destruct (outcome_count o <? 0) eqn:F; simpl.
  all: split; [repeat constructor; exact R|].
  all: split; [repeat constructor; exact W|].
  all: rewrite filter_app, length_app, N; destruct (failed o); simpl; lia.
Qed.

Lemma load_rule_files_accounted (rule_files : list string) (s : Self) :
  accounted s (snd (load_rule_files rule_files s)).
Proof.
  destruct (load_rule_files_run rule_files s) as (s' & E & F).
  destruct F as (_ & C & L & T & _). rewrite E. simpl snd.
  destruct (file_events_accounted
              (fst (load_outcomes (expanded rule_files) (rules s))))
    as (R & W & N).
  do 2 eexists. split; [exact T|]. split; [exact L|].
  split; [unfold rules_count; now rewrite C, sum_loaded_file_events|].
  split; [exact R|]. split; [exact W | exact N].
Qed.

Lemma load_rules_accounted (rules0 : option string) (s : Self) :
  accounted s (snd (load_rules rules0 s)).
Proof.
  destruct rules0 as [[|c text]|]; try apply accounted_refl.
  destruct (@load_rules_run MS (String c text) s) as (s' & E & _ & C & T & L);
    [discriminate|].
  rewrite E. simpl snd. do 2 eexists.
  split; [exact C|]. split; [exact L|].
  unfold rules_count. rewrite T. simpl.
  destruct (fst (load (String c text) (rules s)) <? 0) eqn:N; simpl; rewrite ?N;
    repeat split; repeat constructor; lia.
Qed.

Lemma init_ops_accounted (s : Self) : accounted s (lifetime init_ops s).
Proof.
  unfold init_ops, lifetime. rewrite fold_left_app.
  set (s1 := fold_left (fun s0 op => exec op s0)
                       (match init_rule_files with
                        | Some rule_files => [Op_load_rule_files rule_files]
                        | None => []
                        end) s).
  apply accounted_trans with s1.
  - unfold s1. destruct init_rule_files as [patterns|];
      [apply load_rule_files_accounted | apply accounted_refl].
  - destruct init_rule_lines as [text|];
      [apply load_rules_accounted | apply accounted_refl].
Qed.

(** Construction never raises, whatever fails to load.  The object it leaves
    has made calls on the rules object only, its running total is the sum of
    the counts of the loads that succeeded, and its log holds one warning for
    each load that failed and nothing else. *)
Theorem construction_accounts_for_loads
        (handler : HttpRequest -> HandlerResponse) :
  exists s,
    __init__ handler = (Return tt, s) /\
    rules_count s = sum (map loaded (calls s)) /\
    Forall (fun e => is_rules_call e = true) (calls s) /\
    Forall (fun r => fst r = WARNING) (logger s) /\
    List.length (logger s) = List.length (filter failed_load (calls s)).
Proof.
  exists (lifetime init_ops (attributes handler)).
  split; [apply init_as_lifetime|].
  destruct (init_ops_accounted (attributes handler))
    as (new & extra & C & L & T & R & W & N).
  simpl in C, L. rewrite C, L, T. simpl. tauto.
Qed.

(** When the configured patterns expand to no path and the configured text
    is empty, construction asks nothing of the engine and logs nothing: the
    object is the attributes as first set. *)
Theorem construction_with_nothing_to_load
        (handler : HttpRequest -> HandlerResponse) :
  (forall patterns, init_rule_files = Some patterns -> expanded patterns = []) ->
  (forall text, init_rule_lines = Some text -> text = EmptyString) ->
  __init__ handler = (Return tt, attributes handler).
Proof.
  intros F L. unfold __init__. cbv zeta.
  change (rule_files (attributes handler)) with init_rule_files.
  change (rule_lines (attributes handler)) with init_rule_lines.
  assert (E1 : (match init_rule_files with
                | Some rule_files =>
                    bind (load_rule_files rule_files) (fun _ => ret tt)
                | None => ret tt
                end) (attributes handler) = (Return tt, attributes handler)).
  { destruct init_rule_files as [patterns|]; [|reflexivity].
    now rewrite (bind_Return _ (load_rule_files_no_paths _ _ (F patterns eq_refl))). }
  rewrite (bind_Return _ E1).
  destruct init_rule_lines as [text|]; [|reflexivity].
  now rewrite (L text eq_refl).
Qed.

End Loads.

Lemma load_rule_files_without_paths_witness :
  @load_rule_files Demo.engine Demo.nothing_to_load
    ["missing/*.conf"%string] Demo.fresh = (Return 0, Demo.fresh).
Proof.
  apply (@load_rule_files_without_paths Demo.engine Demo.nothing_to_load
           ["missing/*.conf"%string] Demo.fresh).
  reflexivity.
Defined.

Lemma construction_with_nothing_to_load_witness :
  @__init__ Demo.engine Demo.nothing_to_load Demo.view =
  (Return tt, @attributes Demo.engine Demo.nothing_to_load Demo.view).
Proof.
  apply (@construction_with_nothing_to_load Demo.engine Demo.nothing_to_load
           Demo.view).
  - intros patterns E. injection E as <-. reflexivity.
  - intros text E. injection E as <-. reflexivity.
Defined.

Lemma load_rules_returns_engine_count_witness :
  fst (@load_rules Demo.engine (Some "garbage"%string) Demo.fresh) =
  Return (fst (@load Demo.engine "garbage"%string (rules Demo.fresh))).
Proof.
  apply (@load_rules_returns_engine_count Demo.engine "garbage"%string Demo.fresh).
  discriminate.
Defined.

Lemma submissions_follow_stages_witness :
  exists outcome new s',
    @__call__ Demo.engine Demo.host Demo.home Demo.fresh = (outcome, s') /\
    calls s' = calls Demo.fresh ++ Transaction_init :: new /\
    (1 <= checks_made new <= 6)%nat /\
    submissions new =
      List.concat
        (firstn (checks_made new)
           (stages Demo.home ("10.0.0.7"%string, 8000, "example.org"%string, 8000)
                   (get_response Demo.fresh Demo.home))) /\
    (forall response,
        outcome = Return (Original response) ->
        checks_made new = 6%nat /\
        submissions new =
          List.concat
            (stages Demo.home ("10.0.0.7"%string, 8000, "example.org"%string, 8000)
                    (get_response Demo.fresh Demo.home))).
Proof.
  apply (@submissions_follow_stages Demo.engine Demo.host Demo.home
           ("10.0.0.7"%string, 8000, "example.org"%string, 8000) Demo.fresh).
  reflexivity.
Defined.

Lemma checks_follow_completions_witness :
  exists outcome new s',
    @__call__ Demo.engine Demo.host Demo.admin Demo.fresh = (outcome, s') /\
    calls s' = calls Demo.fresh ++ Transaction_init :: new /\
    checks_made new = List.length (filter is_completed (marks new)) /\
    forall pre post pending it,
      new = pre ++ Tx_intervention pending it :: post ->
      exists init c p, pre = init ++ [Tx c] /\ completes c = Some p.
Proof.
  apply (@checks_follow_completions Demo.engine Demo.host Demo.admin
           ("10.0.0.7"%string, 8000, "example.org"%string, 8000) Demo.fresh).
  reflexivity.
Defined.


Lemma unreadable_body_stops_before_handler_witness :
  exists new,
    calls (snd (@__call__ Demo.engine Demo.host Demo.upload Demo.fresh)) =
      calls Demo.fresh ++ Transaction_init :: new /\
    (checks_made new <= 3)%nat /\
    marks new = firstn (checks_made new) timeline /\
    handler_calls new = [] /\
    (Forall (fun e => halts e = false) new ->
     fst (@__call__ Demo.engine Demo.host Demo.upload Demo.fresh) =
       Raise RequestDataTooBig /\
     checks_made new = 3%nat).
Proof.
  apply (@unreadable_body_stops_before_handler Demo.engine Demo.host Demo.upload
           ("10.0.0.7"%string, 8000, "example.org"%string, 8000)
           RequestDataTooBig Demo.fresh); reflexivity.
Defined.
